(** * LMS technical-support RAG assistant: a shallow embedding of
      [flask_backend.py] and the properties of its ingestion pipeline,
      image-analysis queue, status endpoint and HTTP routes.

    Python values are modelled as follows.
    - [str] is [string]; a character is a code point below 256.
    - [dict] metadata is a [gmap string mval]; the vector collection is a
      [gmap string entry] keyed by entry id.
    - the queue directory is an association list in directory-listing order,
      because the order in which [Path.glob] yields files is what the
      worker iterates over.
    - code that raises returns a [res]; code that mutates the collection or
      the file system threads a [state] and records the collaborator calls
      it makes in a list of [event]s. *)

From Stdlib Require Import Ascii String DecimalString.
From stdpp Require Import gmap strings list fin_maps sorting.


(** ** Python string primitives *)

Definition nl : string := String "010"%char "".

(** [s[a:b]] for [0 <= a] and [0 <= b]. *)
Definition py_slice (s : string) (a b : nat) : string :=
  string_of_list_ascii (take (b - a) (drop a (list_ascii_of_string s))).

(** [range(start, stop, step)] for a positive [step]; the first argument
    bounds the number of elements. *)
Fixpoint range_from (fuel start stop step : nat) : list nat :=
  match fuel with
  | 0 => []
  | S fuel' =>
      if start <? stop then start :: range_from fuel' (start + step) stop step
      else []
  end.

Definition py_range (start stop step : nat) : list nat :=
  range_from stop start stop step.

(** [str(n)] for a natural number. *)
Definition py_str_nat (n : nat) : string :=
  NilZero.string_of_uint (Nat.to_uint n).

(** [sub in s]. *)
Fixpoint py_in (sub s : string) : bool :=
  String.prefix sub s ||
  match s with
  | "" => false
  | String _ s' => py_in sub s'
  end.

(** The split of [s] at the right-most occurrence of [sep], if any. *)
Fixpoint rsplit_last (sep s : string) : option (string * string) :=
  match s with
  | "" => None
  | String c s' =>
      match rsplit_last sep s' with
      | Some (a, b) => Some (String c a, b)
      | None =>
          if String.prefix sep s
          then Some ("", py_slice s (String.length sep) (String.length s))
          else None
      end
  end.

(** [s.rsplit(sep, 1)] for a non-empty [sep]. *)
Definition py_rsplit1 (sep s : string) : list string :=
  match rsplit_last sep s with
  | Some (a, b) => [a; b]
  | None => [s]
  end.

(** [c.lower()] on code points below 256: A-Z and the Latin-1 capitals. *)
Definition lower_char (c : ascii) : ascii :=
  let n := nat_of_ascii c in
  if ((65 <=? n) && (n <=? 90)) || ((192 <=? n) && (n <=? 222) && negb (n =? 215))
  then ascii_of_nat (n + 32) else c.

Fixpoint py_lower (s : string) : string :=
  match s with
  | "" => ""
  | String c s' => String (lower_char c) (py_lower s')
  end.

(** [c.isspace()] on code points below 256. *)
Definition py_isspace (c : ascii) : bool :=
  let n := nat_of_ascii c in
  ((9 <=? n) && (n <=? 13)) || ((28 <=? n) && (n <=? 32)) || (n =? 133) || (n =? 160).

Fixpoint py_lstrip (s : string) : string :=
  match s with
  | "" => ""
  | String c s' => if py_isspace c then py_lstrip s' else s
  end.

Definition py_strip (s : string) : string :=
  String.rev (py_lstrip (String.rev (py_lstrip s))).

(** Truthiness of a [str]. *)
Definition str_truthy (s : string) : bool :=
  match s with "" => false | _ => true end.

(** [sep.join(parts)]. *)
Definition py_join (sep : string) (parts : list string) : string :=
  String.concat sep parts.

(** ** [allowed_file] *)

Definition ALLOWED_EXTENSIONS : gset string := {[ "docx" ]}.

(** [filename.rsplit('.', 1)[1]]; [None] stands for [IndexError]. *)
Definition allowed_file (filename : string) : bool :=
  py_in "." filename &&
  match py_rsplit1 "." filename !! 1 with
  | Some ext => bool_decide (py_lower ext ∈ ALLOWED_EXTENSIONS)
  | None => false
  end.

(** ** Chunking in [process_docx] *)

Definition chunk_text (text : string) : list string :=
  (fun i => py_slice text i (i + 2000)) <$> py_range 0 (String.length text) 1800.

Definition chunk_ids (file_name : string) (n : nat) : list string :=
  (fun i => file_name +:+ "_t_" +:+ py_str_nat i) <$> seq 0 n.

(** ** Data model *)

(** A metadata value: chroma stores strings, booleans and integers. *)
Inductive mval :=
| MStr (s : string)
| MBool (b : bool)
| MInt (z : Z).

Global Instance mval_eq_dec : EqDecision mval.
Proof. solve_decision. Defined.

(** Truthiness of a metadata value, and of the result of [dict.get],
    where [None] is the Python [None]. *)
Definition mval_truthy (v : mval) : bool :=
  match v with
  | MStr s => str_truthy s
  | MBool b => b
  | MInt z => negb (z =? 0)%Z
  end.

Definition get_truthy (o : option mval) : bool :=
  match o with
  | Some v => mval_truthy v
  | None => false
  end.

(** One record of the collection: its document text and its metadata dict. *)
Record entry := Entry {
  document : string;
  metadata : gmap string mval
}.

(** A parsed .docx: paragraph texts, and the relationships of the document
    part as (target_ref, blob of the target part), in [rels.values()] order. *)
Record docx := Docx {
  paragraphs : list string;
  rels : list (string * list Byte.byte)
}.

Inductive exn :=
| PackageNotFoundError
| ParseError
| IndexWriteError
| FileNotFoundError
| DecodeError
| VisionError
| KeyError (key : string)
| QueryError
| CompletionError
| StreamError.

(** A chunk of a completion stream: the [delta.content] of each choice. *)
Definition stream_chunk : Type := list (option string).

(** The collaborators the program calls but does not define. A call that
    raises is [None] (or [false]). The vision model and the embedding-backed
    collection are remote services whose outcome is not a function of the
    arguments of the source call alone, so [describe_reply] is indexed by
    the artifact being handled and [index_accepts] by the ids of the write.
    [describe_reply] is the stripped content of the first choice,
    [decode_png_b64] what PIL and base64 make of the bytes of a file,
    [query_reply] the first list of [documents] of the query result, and
    [completion_reply] the chunks of the stream with a flag telling whether
    the stream breaks after them. *)
Record world := World {
  parse_docx : list Byte.byte → option docx;
  decode_png_b64 : list Byte.byte → option string;
  describe_reply : string → string → option string;
  index_accepts : list string → bool;
  secure_filename : string → string;
  str_exn : exn → string;
  query_reply : string → option (list string);
  completion_reply : string → option (list stream_chunk * bool)
}.

Record state := State {
  index : gmap string entry;
  queue_dir : list (string * list Byte.byte);
  upload_dir : gmap string (list Byte.byte)
}.

(** Calls made to the collaborators and to the file system, in order. *)
Inductive event :=
| EvAdd (ids docs : list string) (metas : list (gmap string mval))
| EvUpdate (ids docs : list string) (metas : list (gmap string mval))
| EvWrite (name : string) (data : list Byte.byte)
| EvSave (path : string) (data : list Byte.byte)
| EvRead (name : string)
| EvVision (name image_b64 : string)
| EvUnlink (name : string)
| EvPrint (e : exn)
| EvSleep (seconds : nat)
| EvQuery (text : string) (n_results : nat)
| EvCompletion (prompt : string).

(** ** The collection *)

(** Modelled from the spec: the vector store is an external collaborator
    (chromadb); section 3 gives it as a mapping from entry id to entry with
    unique ids, queryable by metadata filter, and section 6 lists its
    operations. [add] keeps an entry whose id is already present, [update]
    rewrites the document and the given metadata keys of a present entry. *)
Definition store_add (ids docs : list string) (metas : list (gmap string mval))
    (idx : gmap string entry) : gmap string entry :=
  foldl (fun acc '(i, d, m) =>
           match acc !! i with
           | Some _ => acc
           | None => <[i := Entry d m]> acc
           end) idx (zip (zip ids docs) metas).

Definition store_update (ids docs : list string) (metas : list (gmap string mval))
    (idx : gmap string entry) : gmap string entry :=
  foldl (fun acc '(i, d, m) =>
           alter (fun e => Entry d (m ∪ metadata e)) i acc)
        idx (zip (zip ids docs) metas).

(** [collection.get(ids=ids)["metadatas"]]. *)
Definition store_get_metadatas (idx : gmap string entry) (ids : list string)
    : list (gmap string mval) :=
  omap (fun i => metadata <$> idx !! i) ids.

(** [collection.get(where={"source": file_name})["ids"]]. *)
Definition store_ids_where_source (idx : gmap string entry) (file_name : string)
    : list string :=
  (map_to_list
     (filter (fun kv => metadata kv.2 !! "source" = Some (MStr file_name)) idx)).*1.

(** [collection.get()["metadatas"]]. *)
Definition store_all_metadatas (idx : gmap string entry) : list (gmap string mval) :=
  metadata <$> (map_to_list idx).*2.

(** ** The file system *)

(** [open(name, "wb").write(data)]: an existing file keeps its place in the
    listing, a new one is listed last. *)
Fixpoint fs_write (name : string) (data : list Byte.byte)
    (dir : list (string * list Byte.byte)) : list (string * list Byte.byte) :=
  match dir with
  | [] => [(name, data)]
  | (n, d) :: rest =>
      if decide (n = name) then (n, data) :: rest
      else (n, d) :: fs_write name data rest
  end.

Definition fs_unlink (name : string) (dir : list (string * list Byte.byte))
    : list (string * list Byte.byte) :=
  filter (fun f => f.1 ≠ name) dir.

Fixpoint fs_read (name : string) (dir : list (string * list Byte.byte))
    : option (list Byte.byte) :=
  match dir with
  | [] => None
  | (n, d) :: rest => if decide (n = name) then Some d else fs_read name rest
  end.

Definition py_endswith (suffix s : string) : bool :=
  String.prefix (String.rev suffix) (String.rev s).

(** [queue_dir.glob("*.png")]: the matching names, in listing order. *)
Definition glob_png (dir : list (string * list Byte.byte)) : list string :=
  filter (fun n => py_endswith ".png" n = true) dir.*1.

(** [Path.stem]: the name without its last suffix; a name whose only dot is
    its first character, or whose last character is a dot, has no suffix. *)
Definition path_stem (name : string) : string :=
  match rsplit_last "." name with
  | Some (before, after) =>
      if str_truthy before && str_truthy after then before else name
  | None => name
  end.

(** [os.path.basename] and [os.path.join] (posixpath). *)
Definition basename (path : string) : string :=
  match rsplit_last "/" path with
  | Some (_, b) => b
  | None => path
  end.

Definition path_join (a b : string) : string :=
  if String.prefix "/" b then b
  else if py_endswith "/" a || negb (str_truthy a) then a +:+ b
  else a +:+ "/" +:+ b.

(** [sorted] on paths of one directory: by name, code point by code point. *)
Definition py_sorted (names : list string) : list string :=
  merge_sort String.le names.

(** ** Computations: state, exceptions and the call log *)

Inductive res (A : Type) :=
| Ok (a : A)
| Raise (e : exn).
Arguments Ok {A} a.
Arguments Raise {A} e.

Definition M (A : Type) : Type := state → res A * state * list event.

Global Instance M_ret : MRet M := fun A a st => (Ok a, st, []).

Global Instance M_bind : MBind M := fun A B f m st =>
  match m st with
  | (Ok a, st1, l1) =>
      match f a st1 with
      | (r, st2, l2) => (r, st2, l1 ++ l2)
      end
  | (Raise e, st1, l1) => (Raise e, st1, l1)
  end.

Definition raise {A} (e : exn) : M A := fun st => (Raise e, st, []).

Definition emit (ev : event) : M unit := fun st => (Ok tt, st, [ev]).

Definition get_state : M state := fun st => (Ok st, st, []).

Definition put_state (st' : state) : M unit := fun _ => (Ok tt, st', []).

(** [try: body except Exception as e: handler(e)]. *)
Definition try_except {A} (body : M A) (handler : exn → M A) : M A := fun st =>
  match body st with
  | (Ok a, st1, l1) => (Ok a, st1, l1)
  | (Raise e, st1, l1) =>
      match handler e st1 with
      | (r, st2, l2) => (r, st2, l1 ++ l2)
      end
  end.

(** [for x in xs: body(x)]. *)
Fixpoint for_each {X} (body : X → M unit) (xs : list X) : M unit :=
  match xs with
  | [] => mret tt
  | x :: rest => body x ;; for_each body rest
  end.

Definition from_option_or_raise {A} (e : exn) (o : option A) : M A :=
  match o with
  | Some a => mret a
  | None => raise e
  end.

Definition set_index (idx : gmap string entry) (st : state) : state :=
  State idx (queue_dir st) (upload_dir st).

Definition set_queue_dir (dir : list (string * list Byte.byte)) (st : state) : state :=
  State (index st) dir (upload_dir st).

Definition set_upload_dir (dir : gmap string (list Byte.byte)) (st : state) : state :=
  State (index st) (queue_dir st) dir.

(** [collection.add] and [collection.update]: the call either raises and
    writes nothing, or writes all its records. *)
Definition collection_add (w : world) (ids docs : list string)
    (metas : list (gmap string mval)) : M unit :=
  emit (EvAdd ids docs metas) ;;
  if index_accepts w ids
  then st ← get_state; put_state (set_index (store_add ids docs metas (index st)) st)
  else raise IndexWriteError.

Definition collection_update (w : world) (ids docs : list string)
    (metas : list (gmap string mval)) : M unit :=
  emit (EvUpdate ids docs metas) ;;
  if index_accepts w ids
  then st ← get_state; put_state (set_index (store_update ids docs metas (index st)) st)
  else raise IndexWriteError.

Definition unlink_missing_ok (name : string) : M unit :=
  emit (EvUnlink name) ;;
  st ← get_state; put_state (set_queue_dir (fs_unlink name (queue_dir st)) st).

Definition open_read (name : string) : M (list Byte.byte) :=
  emit (EvRead name) ;;
  st ← get_state; from_option_or_raise FileNotFoundError (fs_read name (queue_dir st)).

Definition open_write (name : string) (data : list Byte.byte) : M unit :=
  emit (EvWrite name data) ;;
  st ← get_state; put_state (set_queue_dir (fs_write name data (queue_dir st)) st).

(** [prepare_image_for_vision]: PIL decodes the bytes, converts the colour
    mode and re-encodes as base64 PNG; it raises on bytes it cannot decode. *)
Definition prepare_image_for_vision (w : world) (image_bytes : list Byte.byte) : M string :=
  from_option_or_raise DecodeError (decode_png_b64 w image_bytes).

(** [describe_image], called while handling the artifact [name]. *)
Definition describe_image (w : world) (name image_b64 : string) : M string :=
  emit (EvVision name image_b64) ;;
  from_option_or_raise VisionError (describe_reply w name image_b64).

(** [d[key]]. *)
Definition dict_getitem (d : gmap string mval) (key : string) : M mval :=
  from_option_or_raise (KeyError key) (d !! key).

(** ** [LearningCurveRAG._vision_worker] *)

(** The body of the [try] for one artifact of the sweep. *)
Definition handle_image (w : world) (img_path : string) : M unit :=
  let doc_id := path_stem img_path in
  st ← get_state;
  match store_get_metadatas (index st) [doc_id] with
  | [] => mret tt
  | meta :: _ =>
      if get_truthy (meta !! "processed") then unlink_missing_ok img_path
      else
        data ← open_read img_path;
        image_b64 ← prepare_image_for_vision w data;
        description ← describe_image w img_path image_b64;
        source ← dict_getitem meta "source";
        collection_update w [doc_id] [description]
          [{[ "processed" := MBool true; "type" := MStr "image"; "source" := source ]}] ;;
        unlink_missing_ok img_path
  end.

(** [for img_path in images: try: ... except Exception as e: print(...)]. *)
Definition sweep (w : world) (images : list string) : M unit :=
  for_each (fun img_path =>
              try_except (handle_image w img_path) (fun e => emit (EvPrint e)))
           images.

(** One iteration of [while True]. *)
Definition vision_worker_iteration (w : world) : M unit :=
  st ← get_state;
  let images := glob_png (queue_dir st) in
  match images with
  | [] => emit (EvSleep 10)
  | _ => sweep w images ;; emit (EvSleep 10)
  end.

(** The loop, run for as many iterations as there are worlds: the i-th
    iteration sees the collaborators behave as the i-th world says. *)
Fixpoint vision_worker (ws : list world) : M unit :=
  match ws with
  | [] => mret tt
  | w :: rest => vision_worker_iteration w ;; vision_worker rest
  end.

(** ** [LearningCurveRAG.process_docx] *)

Definition IMAGE_PLACEHOLDER : string := "[Image queued for analysis]".

Definition DocxDocument (w : world) (path : string) : M docx :=
  st ← get_state;
  data ← from_option_or_raise PackageNotFoundError (upload_dir st !! path);
  from_option_or_raise ParseError (parse_docx w data).

Definition extract_text (doc : docx) : string :=
  py_join nl (filter (fun t => str_truthy (py_strip t) = true) (paragraphs doc)).

Definition text_metadata (file_name : string) : gmap string mval :=
  {[ "source" := MStr file_name; "type" := MStr "text" ]}.

Definition image_metadata (file_name : string) : gmap string mval :=
  {[ "source" := MStr file_name; "processed" := MBool false; "type" := MStr "image" ]}.

Definition image_id (file_name : string) (img_index : nat) : string :=
  file_name +:+ "_img_" +:+ py_str_nat img_index.

(** [for rel in doc.part.rels.values(): ...] with its counter [img_index]. *)
Fixpoint queue_images (w : world) (file_name : string)
    (rels : list (string * list Byte.byte)) (img_index : nat) : M unit :=
  match rels with
  | [] => mret tt
  | (target_ref, blob) :: rest =>
      if py_in "image" target_ref then
        let img_id := image_id file_name img_index in
        open_write (img_id +:+ ".png") blob ;;
        collection_add w [img_id] [IMAGE_PLACEHOLDER] [image_metadata file_name] ;;
        queue_images w file_name rest (S img_index)
      else queue_images w file_name rest img_index
  end.

Definition process_docx (w : world) (path : string) : M unit :=
  doc ← DocxDocument w path;
  let file_name := basename path in
  st ← get_state;
  match store_ids_where_source (index st) file_name with
  | _ :: _ => mret tt
  | [] =>
      let text := extract_text doc in
      let chunks := chunk_text text in
      collection_add w (chunk_ids file_name (length chunks)) chunks
        (replicate (length chunks) (text_metadata file_name)) ;;
      queue_images w file_name (rels doc) 0
  end.

(** ** Flask routes *)

Record current_image := CurrentImage {
  filename : string;
  source_doc : string
}.

Record queue_report := QueueReport {
  pending_images : nat;
  total_images : nat;
  processed_images : nat;
  is_processing : bool;
  current : option current_image
}.

(** The generator object made by calling [generate()]: nothing of its body
    has run; iterating it against a world yields frames and ends normally or
    by raising, having made the listed calls. *)
Definition generator : Type := world → list string * res unit * list event.

Inductive body :=
| JsonError (msg : string)
| JsonMessage (msg : string)
| JsonQueueStatus (r : queue_report)
| EventStream (g : generator).

Record response := Response {
  resp_body : body;
  status : nat
}.

Record file_storage := FileStorage {
  fs_filename : string;
  fs_content : list Byte.byte
}.

Definition UPLOAD_FOLDER : string := "./uploaded_docs".

(** [file.save(filepath)]. *)
Definition file_save (file : file_storage) (filepath : string) : M unit :=
  emit (EvSave filepath (fs_content file)) ;;
  st ← get_state;
  put_state (set_upload_dir (<[filepath := fs_content file]> (upload_dir st)) st).

(** [upload_file]; the argument is [request.files]. *)
Definition upload_file (w : world) (files : gmap string file_storage) : M response :=
  match files !! "file" with
  | None => mret (Response (JsonError "No file part") 400)
  | Some file =>
      if decide (fs_filename file = "") then
        mret (Response (JsonError "No selected file") 400)
      else if str_truthy (fs_filename file) && allowed_file (fs_filename file) then
        let filename := secure_filename w (fs_filename file) in
        let filepath := path_join UPLOAD_FOLDER filename in
        file_save file filepath ;;
        try_except
          (process_docx w filepath ;;
           mret (Response
                   (JsonMessage ("File " +:+ filename +:+ " uploaded and processed successfully!"))
                   200))
          (fun e => mret (Response (JsonError ("Error processing file: " +:+ str_exn w e)) 500))
      else
        mret (Response (JsonError "Invalid file type. Only .docx files are allowed.") 400)
  end.

(** The loop of [queue_status] that finds [current_image]. *)
Fixpoint find_current_image (idx : gmap string entry) (pending : list string)
    : option current_image :=
  match pending with
  | [] => None
  | img_path :: rest =>
      let doc_id := path_stem img_path in
      match store_get_metadatas idx [doc_id] with
      | [] => find_current_image idx rest
      | meta :: _ =>
          if get_truthy (meta !! "processed") then find_current_image idx rest
          else Some (CurrentImage img_path
                       (if py_in "_img_" (path_stem img_path)
                        then default "" (py_rsplit1 "_img_" (path_stem img_path) !! 0)
                        else "Unknown"))
      end
  end.

Definition is_image (meta : gmap string mval) : bool :=
  bool_decide (meta !! "type" = Some (MStr "image")).

Definition queue_status (w : world) : M response :=
  try_except
    (st ← get_state;
     let pending := py_sorted (glob_png (queue_dir st)) in
     let pending_count := length pending in
     let current_image := find_current_image (index st) pending in
     let all_metadata := store_all_metadatas (index st) in
     let total := length (filter (fun m => is_image m = true) all_metadata) in
     let processed :=
       length (filter (fun m => is_image m && get_truthy (m !! "processed") = true)
                 all_metadata) in
     mret (Response
             (JsonQueueStatus
                (QueueReport pending_count total processed (0 <? pending_count) current_image))
             200))
    (fun e => mret (Response (JsonError ("Error getting queue status: " +:+ str_exn w e)) 500)).

(** The prompt of the streaming endpoint. *)
Definition ask_prompt (context question : string) : string :=
  "You are a specialized LMS Technical Support Assistant. " +:+
  "Your goal is to provide a walkthrough that is impossible to misunderstand." +:+ nl +:+ nl +:+
  "CRITICAL FORMATTING RULES:" +:+ nl +:+
  "- Use '## 1)' '## 2)' '## 3)' etc. for main steps" +:+ nl +:+
  "- Use '1.' '2.' '3.' etc. for sub-steps under each main step" +:+ nl +:+
  "- IMPORTANT: Put each sub-step on a NEW LINE (press Enter after each sub-step)" +:+ nl +:+
  "- Example format:" +:+ nl +:+
  "  ## 1) Main step title" +:+ nl +:+
  "  1. First sub-step here." +:+ nl +:+
  "  2. Second sub-step here." +:+ nl +:+
  "  3. Third sub-step here." +:+ nl +:+
  "  ## 2) Next main step" +:+ nl +:+ nl +:+
  "CONTENT RULES:" +:+ nl +:+
  "- For every action, describe the visual icon (e.g., 'the megaphone icon') and its screen location" +:+ nl +:+
  "- Use **bold** for important UI elements, colors, and locations" +:+ nl +:+
  "- Be conversational but extremely precise" +:+ nl +:+
  "- Answer ONLY using the provided context" +:+ nl +:+
  "- Use both text documentation AND image descriptions" +:+ nl +:+ nl +:+
  "CONTEXT:" +:+ nl +:+ context +:+ nl +:+ nl +:+
  "USER QUESTION: " +:+ question.

(** [chunk.choices and chunk.choices[0].delta.content], as the frame to
    yield when it is truthy. *)
Definition chunk_frame (chunk : stream_chunk) : list string :=
  match chunk with
  | Some content :: _ =>
      if str_truthy content then ["data: " +:+ content +:+ nl +:+ nl] else []
  | _ => []
  end.

(** The body of the nested [generate()], run by whoever iterates it. *)
Definition generate (question : string) : generator := fun w =>
  match query_reply w question with
  | None => ([], Raise QueryError, [EvQuery question 6])
  | Some documents =>
      let context := py_join (nl +:+ nl) documents in
      let prompt := ask_prompt context question in
      match completion_reply w prompt with
      | None => ([], Raise CompletionError, [EvQuery question 6; EvCompletion prompt])
      | Some (chunks, broken) =>
          let frames := chunks ≫= chunk_frame in
          if broken
          then (frames, Raise StreamError, [EvQuery question 6; EvCompletion prompt])
          else (frames ++ ["data: [DONE]" +:+ nl +:+ nl], Ok tt,
                [EvQuery question 6; EvCompletion prompt])
      end
  end.

(** [ask_question]; the argument is [request.json]. The [try] encloses the
    definition of [generate] and the construction of the response around
    the generator object. *)
Definition ask_question (w : world) (data : gmap string string) : M response :=
  let question := default "" (data !! "question") in
  if negb (str_truthy question) then
    mret (Response (JsonError "No question provided") 400)
  else
    try_except
      (mret (Response (EventStream (generate question)) 200))
      (fun e => mret (Response (JsonError ("Error processing question: " +:+ str_exn w e)) 500)).

(** What the server does with a response it was handed: it iterates a
    streaming body, which is when the generator's code runs. *)
Definition iterate_body (w : world) (r : response) : list string * res unit * list event :=
  match resp_body r with
  | EventStream g => g w
  | _ => ([], Ok tt, [])
  end.

(** ** Observations used by the properties *)

(** The artifacts a run opened for analysis, in order. *)
Definition reads (log : list event) : list string :=
  log ≫= (fun ev => match ev with EvRead name => [name] | _ => [] end).

(** The artifacts submitted to the vision model. *)
Definition submitted (log : list event) : list string :=
  log ≫= (fun ev => match ev with EvVision name _ => [name] | _ => [] end).

(** The ids whose record a run asked the collection to update. *)
Definition updated_ids (log : list event) : list string :=
  log ≫= (fun ev => match ev with EvUpdate ids _ _ => ids | _ => [] end).

(** An artifact whose entry exists and is not processed: the two guards
    of the worker's loop body both fall through. *)
Definition awaits_analysis (idx : gmap string entry) (img_path : string) : bool :=
  match store_get_metadatas idx [path_stem img_path] with
  | [] => false
  | meta :: _ => negb (get_truthy (meta !! "processed"))
  end.

(** The first artifact the worker opens in the iteration it runs from [st]. *)
Definition worker_next (w : world) (st : state) : option string :=
  head (reads (vision_worker_iteration w st).2).

(** The [filename] of [current_image] in the reply of [/queue-status]. *)
Definition reported_current (w : world) (st : state) : option string :=
  match (queue_status w st).1.1 with
  | Ok (Response (JsonQueueStatus r) _) => filename <$> current r
  | _ => None
  end.

(** Whether [process_docx] would take [file_name] for already ingested. *)
Definition known_source (st : state) (file_name : string) : bool :=
  match store_ids_where_source (index st) file_name with
  | _ :: _ => true
  | [] => false
  end.

Definition processed (st : state) (id : string) : bool :=
  match index st !! id with
  | Some e => get_truthy (metadata e !! "processed")
  | None => false
  end.

Definition in_queue (st : state) (name : string) : Prop :=
  name ∈ (queue_dir st).*1.

(** The metadata the worker writes back for an analysed image. *)
Definition processed_metadata (source : mval) : gmap string mval :=
  {[ "processed" := MBool true; "type" := MStr "image"; "source" := source ]}.

(** The log of one pass of the loop body: the calls of the [try] body, then
    the [print] of the [except] clause when the body raised. *)
Definition body_log (r : res unit) (log : list event) : list event :=
  log ++ match r with
         | Ok _ => []
         | Raise e => [EvPrint e]
         end.

(** The first artifact of a listing that awaits analysis. *)
Definition first_awaiting (idx : gmap string entry) (images : list string)
    : option string :=
  head (filter (fun p => awaits_analysis idx p = true) images).

(** ** Statements in the words of the specification *)

(** The name has a dot, and what follows its last dot is docx when
    lowercased. *)
Definition has_docx_extension (filename : string) : Prop :=
  ∃ base ext, filename = base +:+ "." +:+ ext ∧ py_in "." ext = false ∧
              py_lower ext = "docx".

(** What a chunk holds from offset 1800 on: the characters it has in common
    with the chunk that follows it. *)
Definition shared_tail (chunk : string) : string :=
  py_slice chunk 1800 (String.length chunk).

(** A paragraph that is empty or made of whitespace only. *)
Definition whitespace_only (p : string) : Prop :=
  Forall (fun c => py_isspace c = true) (list_ascii_of_string p).

(** ** Concrete inputs *)

(** A text of [n] letters a. *)
Definition letters (n : nat) : string :=
  string_of_list_ascii (replicate n "a"%char).

Definition demo_path : string := "./uploaded_docs/f.docx".

(** A document of one paragraph of 1900 letters and no image. *)
Definition long_docx : docx := Docx [letters 1900] [].

Definition demo_docx : docx :=
  Docx ["hello"; "  "; "world"]
       [("media/image1.png", [Byte.x01]); ("styles.xml", []);
        ("media/image2.png", [Byte.x02])].

(** A world in which every file parses to [doc] and every collaborator
    answers, except that the vision model fails on the first image of
    f.docx. *)
Definition world_for (doc : docx) : world :=
  World (fun _ => Some doc)
        (fun _ => Some "b64")
        (fun name _ => if decide (name = "f.docx_img_0.png") then None else Some "a gear")
        (fun _ => true)
        (fun s => s)
        (fun _ => "error")
        (fun _ => Some ["d1"; "d2"])
        (fun _ => Some ([[Some "to"]; []; [Some ""]; [Some "ken"]], false)).

Definition demo_world : world := world_for demo_docx.

(** A document with blank paragraphs only, and one image. *)
Definition blank_docx : docx :=
  Docx ["  "; ""; String "009"%char " "] [("media/image1.png", [Byte.x01])].

(** As [world_for], but the collection refuses the write of the ids
    [refused]. *)
Definition world_refusing (doc : docx) (refused : list string) : world :=
  World (fun _ => Some doc)
        (fun _ => Some "b64")
        (fun _ _ => Some "a gear")
        (fun ids => bool_decide (ids ≠ refused))
        (fun s => s)
        (fun _ => "error")
        (fun _ => Some ["d1"; "d2"])
        (fun _ => Some ([[Some "to"]], false)).

(** A queue that holds one artifact whose id is not in the collection. *)
Definition orphan_state : state :=
  State ∅ [("orphan_img_0.png", [Byte.x01])] ∅.

Definition empty_state : state := State ∅ [] ∅.

Definition uploaded_state : state :=
  State ∅ [] {[ "./uploaded_docs/f.docx" := [] ]}.

(** Two queued images, which the directory lists in the order b, a. *)
Definition unsorted_state : state :=
  State {[ "a.docx_img_0" := Entry IMAGE_PLACEHOLDER (image_metadata "a.docx");
           "b.docx_img_0" := Entry IMAGE_PLACEHOLDER (image_metadata "b.docx") ]}
        [("b.docx_img_0.png", [Byte.x02]); ("a.docx_img_0.png", [Byte.x01])]
        ∅.

(** A world whose similarity query and completion model are unreachable. *)
Definition offline_world : world :=
  World (fun _ => None) (fun _ => None) (fun _ _ => None) (fun _ => false)
        (fun s => s) (fun _ => "connection error") (fun _ => None) (fun _ => None).

(** The state after f.docx, with its two images, has been ingested. *)
Definition queued_state : state :=
  (process_docx demo_world demo_path uploaded_state).1.2.

(** ** Further methods and routes *)

(** [list_documents]: the reply carries [list(set(...))] of the sources. *)
Definition mval_to_sum (v : mval) : string + (bool + Z) :=
  match v with
  | MStr s => inl s
  | MBool b => inr (inl b)
  | MInt z => inr (inr z)
  end.

Definition mval_of_sum (x : string + (bool + Z)) : mval :=
  match x with
  | inl s => MStr s
  | inr (inl b) => MBool b
  | inr (inr z) => MInt z
  end.

Global Instance mval_countable : Countable mval.
Proof. refine (inj_countable' mval_to_sum mval_of_sum _). by intros []. Defined.





(** [docs_dir.rglob("*.docx")]: the stored files below [docs_dir] whose name
    ends in .docx, each named by the path it is stored under. *)
Definition rglob_docx (docs_dir : string) (dir : gmap string (list Byte.byte))
    : list string :=
  filter (fun p => String.prefix (docs_dir +:+ "/") p && py_endswith ".docx" p = true)
         (map_to_list dir).*1.

(** [create_vectorstore]: no [try] around the calls. *)
Definition create_vectorstore (w : world) (docs_dir : string) : M unit :=
  st ← get_state;
  for_each (fun file => process_docx w file) (rglob_docx docs_dir (upload_dir st)).

(** The prompt of the [ask] method. *)
Definition ask_method_prompt (context question : string) : string :=
  "You are a specialized LMS Technical Support Assistant. " +:+
  "Your goal is to provide a walkthrough that is impossible to misunderstand." +:+ nl +:+ nl +:+
  "RULES:" +:+ nl +:+
  "1. For every action, describe the visual icon (e.g., 'the megaphone icon') and its screen location." +:+ nl +:+
  "2. Use both the text documentation AND the image descriptions provided in the context." +:+ nl +:+
  "3. If an icon is mentioned but not described, use the image analysis to find its shape/color." +:+ nl +:+
  "4. Be conversational but extremely precise. Answer ONLY using the provided context." +:+ nl +:+ nl +:+
  "CONTEXT:" +:+ nl +:+ context +:+ nl +:+ nl +:+
  "USER QUESTION: " +:+ question.

(** [LearningCurveRAG.ask]. [complete] is the non-streaming completion call:
    the content of the first choice, or [None] when the call raises. *)
Definition ask (w : world) (complete : string → option string) (question : string)
    : M string :=
  emit (EvQuery question 6) ;;
  documents ← from_option_or_raise QueryError (query_reply w question);
  let context := py_join (nl +:+ nl) documents in
  let prompt := ask_method_prompt context question in
  emit (EvCompletion prompt) ;;
  from_option_or_raise CompletionError (complete prompt).

(** ** Further observations *)

(** The relationships of a document that [process_docx] takes for images. *)
Definition image_rels (rels : list (string * list Byte.byte))
    : list (string * list Byte.byte) :=
  filter (fun rel => py_in "image" rel.1 = true) rels.

(** The calls made for the [k]-th image of a source, counting from
    [first]: the queue file is written, then the entry is added. *)
Definition image_calls (file_name : string) (first k : nat)
    (rel : string * list Byte.byte) : list event :=
  [EvWrite (image_id file_name (first + k) +:+ ".png") rel.2;
   EvAdd [image_id file_name (first + k)] [IMAGE_PLACEHOLDER]
         [image_metadata file_name]].



(** A world in which no file parses. *)
Definition unparseable_world : world :=
  World (fun _ => None) (fun _ => Some "b64") (fun _ _ => Some "a gear")
        (fun _ => true) (fun s => s) (fun _ => "not a docx")
        (fun _ => Some ["d1"; "d2"]) (fun _ => Some ([[Some "to"]], false)).

(** A world in which everything succeeds. *)
Definition healthy_world : world :=
  World (fun _ => Some demo_docx) (fun _ => Some "b64") (fun _ _ => Some "a gear")
        (fun _ => true) (fun s => s) (fun _ => "error")
        (fun _ => Some ["d1"; "d2"]) (fun _ => Some ([[Some "to"]], false)).

(** A string of decimal digits. *)
Definition is_digit (c : ascii) : bool :=
  (48 <=? nat_of_ascii c) && (nat_of_ascii c <=? 57).

Definition digits_only (s : string) : Prop :=
  Forall (fun c => is_digit c = true) (list_ascii_of_string s).

(** The source recorded for an id, if the id has an entry. *)
Definition source_of (idx : gmap string entry) (id : string) : option (option mval) :=
  (fun e => metadata e !! "source") <$> idx !! id.


(** An event of the ingestion: an add to the collection or a write of a
    queue file. *)
Definition is_add_or_write (ev : event) : Prop :=
  match ev with
  | EvAdd _ _ _ | EvWrite _ _ => True
  | _ => False
  end.

(** A world whose vision model is unreachable. *)
Definition vision_down_world : world :=
  World (fun _ => Some demo_docx) (fun _ => Some "b64") (fun _ _ => None)
        (fun _ => true) (fun s => s) (fun _ => "error")
        (fun _ => Some ["d1"; "d2"]) (fun _ => Some ([[Some "to"]], false)).

(** * Properties *)

(** ** Strings *)

Lemma app_String c s t : String c s +:+ t = String c (s +:+ t).
Proof. reflexivity. Qed.

Lemma py_slice_tail c s : py_slice (String c s) 1 (String.length (String c s)) = s.
Proof.
  unfold py_slice. cbn [list_ascii_of_string String.length drop].
  replace (S (String.length s) - 1) with (String.length s) by lia.
  rewrite drop_0, firstn_all2.
  - apply string_of_list_ascii_of_string.
  - clear c. induction s as [|c s IH]; simpl; lia.
Qed.

Lemma prefix_dot c s : String.prefix "." (String c s) = bool_decide (c = "."%char).
Proof.
  cbn [String.prefix]. destruct (ascii_dec "." c) as [<-|Hne].
  - destruct s; rewrite bool_decide_eq_true_2; done.
  - rewrite bool_decide_eq_false_2; [done | congruence].
Qed.

Lemma rsplit_last_dot_None s : rsplit_last "." s = None ↔ py_in "." s = false.
Proof.
  induction s as [|c s IH].
  - done.
  - cbn [rsplit_last py_in]. rewrite prefix_dot.
    destruct (rsplit_last "." s) as [[a b]|].
    + split; [done |]. intros [_ H]%orb_false_iff. apply IH in H. done.
    + destruct IH as [IH _]. rewrite (IH eq_refl), orb_false_r.
      case_bool_decide; split; done.
Qed.

Lemma rsplit_last_dot_Some s a b :
  rsplit_last "." s = Some (a, b) ↔ s = a +:+ "." +:+ b ∧ py_in "." b = false.
Proof.
  split.
  - revert a. induction s as [|c s IH]; intros a; [done |].
    cbn [rsplit_last]. destruct (rsplit_last "." s) as [[a' b']|] eqn:Hs.
    + intros [= <- <-]. destruct (IH a' eq_refl) as [-> Hb]. done.
    + rewrite prefix_dot. case_bool_decide as Hc; [|done].
      intros [= <- <-]. rewrite py_slice_tail. subst c.
      split; [done |]. by apply rsplit_last_dot_None.
  - intros [-> Hb]. induction a as [|c a IH].
    + change ("" +:+ "." +:+ b) with (String "." b). cbn [rsplit_last].
      apply rsplit_last_dot_None in Hb. rewrite Hb, prefix_dot.
      rewrite bool_decide_eq_true_2 by done. by rewrite py_slice_tail.
    + rewrite app_String. cbn [rsplit_last]. by rewrite IH.
Qed.

Lemma allowed_file_spec filename :
  allowed_file filename = true ↔
  ∃ base ext, filename = base +:+ "." +:+ ext ∧ py_in "." ext = false ∧
              py_lower ext = "docx".
Proof.
  unfold allowed_file, py_rsplit1, ALLOWED_EXTENSIONS. split.
  - intros [Hin H]%andb_true_iff.
    destruct (rsplit_last "." filename) as [[a b]|] eqn:Hs; [|done].
    apply rsplit_last_dot_Some in Hs as [-> Hb]. cbn in H.
    apply bool_decide_eq_true in H. apply elem_of_singleton in H. eauto.
  - intros (base & ext & -> & Hext & Hlow).
    assert (Hs : rsplit_last "." (base +:+ "." +:+ ext) = Some (base, ext))
      by by apply rsplit_last_dot_Some.
    rewrite Hs. cbn [lookup list_lookup]. apply andb_true_iff. split.
    + destruct (py_in "." (base +:+ "." +:+ ext)) eqn:Hin; [done |].
      apply rsplit_last_dot_None in Hin. congruence.
    + cbn. apply bool_decide_eq_true. rewrite Hlow. by apply elem_of_singleton.
Qed.

(** ** The monad's plumbing *)

Ltac unfold_M :=
  unfold mbind, M_bind, mret, M_ret, emit, get_state, put_state, raise,
    from_option_or_raise, try_except in *.

Lemma run_ret_bind {A B} (a : A) (f : A → M B) st : (mret a ≫= f) st = f a st.
Proof. unfold_M. by destruct (f a st) as [[r st'] l]. Qed.

Lemma run_get_bind {B} (f : state → M B) st : (get_state ≫= f) st = f st st.
Proof. unfold_M. by destruct (f st st) as [[r st'] l]. Qed.

Lemma run_put_bind {B} (s : state) (f : unit → M B) st : (put_state s ≫= f) st = f tt s.
Proof. unfold_M. by destruct (f tt s) as [[r st'] l]. Qed.

Lemma run_raise_bind {A B} (e : exn) (f : A → M B) st :
  (raise e ≫= f) st = (Raise e, st, []).
Proof. done. Qed.

Lemma run_emit_bind {B} (ev : event) (f : unit → M B) st :
  (emit ev ≫= f) st = (let '(r, st', l) := f tt st in (r, st', ev :: l)).
Proof. unfold_M. by destruct (f tt st) as [[r st'] l]. Qed.

Lemma run_bind_assoc {A B C} (m : M A) (f : A → M B) (g : B → M C) st :
  ((m ≫= f) ≫= g) st = (m ≫= (fun a => f a ≫= g)) st.
Proof.
  unfold_M. destruct (m st) as [[[a|e] st1] l1]; [|done].
  destruct (f a st1) as [[[b|e] st2] l2]; [|done].
  destruct (g b st2) as [[r st3] l3]. by rewrite app_assoc.
Qed.

Lemma run_ret {A} (a : A) st : (mret a : M A) st = (Ok a, st, []).
Proof. done. Qed.

Lemma run_emit ev st : emit ev st = (Ok tt, st, [ev]).
Proof. done. Qed.

Lemma run_some_bind {A B} (e : exn) (a : A) (f : A → M B) st :
  (from_option_or_raise e (Some a) ≫= f) st = f a st.
Proof. apply run_ret_bind. Qed.

Lemma run_none_bind {A B} (e : exn) (f : A → M B) st :
  (from_option_or_raise e (None : option A) ≫= f) st = (Raise e, st, []).
Proof. done. Qed.

Ltac simpl_M :=
  repeat first
    [ rewrite run_bind_assoc | rewrite run_get_bind | rewrite run_put_bind
    | rewrite run_ret_bind | rewrite run_raise_bind | rewrite run_emit_bind
    | rewrite run_some_bind | rewrite run_none_bind ].

(** ** The upload gate (C9) *)

(** C9. The upload endpoint accepts a file exactly when its name has a dot
    and the part after the last dot, lowercased, is docx: an accepted upload
    is saved first and is never answered 400; any other name is answered 400
    with the state untouched and no call made. Manual.DOCX is accepted,
    docx and a.docx.exe are not. *)
Theorem upload_accepts_exactly_docx (w : world) (files : gmap string file_storage)
    (file : file_storage) (st : state) :
  files !! "file" = Some file →
  (allowed_file (fs_filename file) = true ↔ has_docx_extension (fs_filename file)) ∧
  (has_docx_extension (fs_filename file) →
     ∃ r st' log,
       upload_file w files st =
         (Ok r, st',
          EvSave (path_join UPLOAD_FOLDER (secure_filename w (fs_filename file)))
                 (fs_content file) :: log) ∧
       status r ≠ 400) ∧
  (¬ has_docx_extension (fs_filename file) →
     ∃ msg, upload_file w files st = (Ok (Response (JsonError msg) 400), st, [])) ∧
  allowed_file "Manual.DOCX" = true ∧
  allowed_file "docx" = false ∧
  allowed_file "a.docx.exe" = false.
Proof.
  intros Hfile.
  pose proof (allowed_file_spec (fs_filename file)) as Hspec.
  fold (has_docx_extension (fs_filename file)) in Hspec.
  split; [exact Hspec |]. split; [| split; [| done]].
  - intros Hext. apply Hspec in Hext.
    unfold upload_file. rewrite Hfile.
    destruct (decide (fs_filename file = "")) as [Hempty|Hne].
    { rewrite Hempty in Hext. done. }
    rewrite Hext. destruct (fs_filename file) as [|c name] eqn:Hname; [done |].
    cbn [str_truthy andb]. unfold file_save. unfold_M. cbn.
    match goal with
    | |- context [process_docx ?w' ?p ?s] =>
        destruct (process_docx w' p s) as [[[[]|e] st2] l2]
    end; cbn; eexists _, _, _; (split; [reflexivity | done]).
  - intros Hext.
    assert (Hno : allowed_file (fs_filename file) = false).
    { destruct (allowed_file (fs_filename file)); [|done].
      exfalso. apply Hext, Hspec. done. }
    unfold upload_file. rewrite Hfile, Hno, andb_false_r.
    destruct (decide (fs_filename file = "")); unfold_M; eauto.
Qed.

Lemma upload_accepts_exactly_docx_witness :
  ({[ "file" := FileStorage "a.docx.exe" [] ]} : gmap string file_storage) !! "file"
    = Some (FileStorage "a.docx.exe" []) ∧
  ∃ msg, upload_file demo_world {[ "file" := FileStorage "a.docx.exe" [] ]} empty_state
         = (Ok (Response (JsonError msg) 400), empty_state, []).
Proof.
  assert (Hfile : ({[ "file" := FileStorage "a.docx.exe" [] ]}
                     : gmap string file_storage) !! "file"
                  = Some (FileStorage "a.docx.exe" [])) by reflexivity.
  split; [exact Hfile |].
  destruct (upload_accepts_exactly_docx demo_world _ _ empty_state Hfile)
    as (Hiff & _ & Hreject & _).
  apply Hreject. intros Hext. apply Hiff in Hext. discriminate Hext.
Defined.

(** ** Slices and ranges *)

Lemma strlen_chars s : String.length s = length (list_ascii_of_string s).
Proof. induction s as [|c s IH]; simpl; congruence. Qed.

Lemma slice_chars s a b :
  list_ascii_of_string (py_slice s a b) = take (b - a) (drop a (list_ascii_of_string s)).
Proof. unfold py_slice. apply list_ascii_of_string_of_list_ascii. Qed.

Lemma chars_inj s t : list_ascii_of_string s = list_ascii_of_string t → s = t.
Proof.
  intros H. rewrite <- (string_of_list_ascii_of_string s),
    <- (string_of_list_ascii_of_string t). by rewrite H.
Qed.

Lemma chars_app s t :
  list_ascii_of_string (s +:+ t) = list_ascii_of_string s ++ list_ascii_of_string t.
Proof. induction s as [|c s IH]; [done |]. rewrite app_String. simpl. by rewrite IH. Qed.

Lemma chars_join_empty (parts : list string) :
  list_ascii_of_string (py_join "" parts) = concat (list_ascii_of_string <$> parts).
Proof.
  unfold py_join. induction parts as [|p parts IH]; [done |].
  destruct parts as [|q parts].
  - simpl. by rewrite app_nil_r.
  - change (String.concat "" (p :: q :: parts))
      with (p +:+ "" +:+ String.concat "" (q :: parts)).
    rewrite chars_app. change ("" +:+ ?x) with x. rewrite IH. done.
Qed.

Lemma slice_length s a b :
  String.length (py_slice s a b) = min (b - a) (String.length s - a).
Proof. by rewrite !strlen_chars, slice_chars, length_take, length_drop. Qed.

Lemma fmap_seq_shift {A} (f : nat → A) n :
  f <$> seq 0 (S n) = f 0 :: ((fun k => f (S k)) <$> seq 0 n).
Proof. cbn [seq fmap list_fmap]. f_equal. by rewrite <- fmap_S_seq, <- list_fmap_compose. Qed.

Lemma range_from_seq n : ∀ fuel start stop step,
  0 < step → n ≤ fuel →
  stop ≤ start + n * step →
  (n = 0 ∨ start + (n - 1) * step < stop) →
  range_from fuel start stop step = (fun k => start + k * step) <$> seq 0 n.
Proof.
  induction n as [|n IH]; intros fuel start stop step Hstep Hfuel Hup Hlow.
  - destruct fuel as [|fuel]; [done |]. cbn [range_from].
    destruct (Nat.ltb_spec start stop); [lia | done].
  - destruct fuel as [|fuel]; [lia |]. cbn [range_from].
    destruct Hlow as [|Hlow]; [lia |].
    destruct (Nat.ltb_spec start stop) as [Hlt|Hge]; [| nia].
    rewrite fmap_seq_shift. f_equal; [lia |].
    rewrite (IH fuel (start + step) stop step); [| lia | lia | lia |].
    + apply list_fmap_ext. intros _ k _. lia.
    + destruct n as [|n]; [by left | right].
      replace (S (S n) - 1) with (S n) in Hlow by lia.
      replace (S n - 1) with n by lia. lia.
Qed.

Lemma py_range_0 stop step :
  0 < step →
  py_range 0 stop step = (fun k => k * step) <$> seq 0 ((stop + step - 1) / step).
Proof.
  intros Hstep. unfold py_range.
  pose proof (Nat.div_mod_eq (stop + step - 1) step) as Hdm.
  pose proof (Nat.mod_upper_bound (stop + step - 1) step) as Hmod.
  set (n := (stop + step - 1) / step) in *.
  rewrite (range_from_seq n); [done | done | nia | nia |].
  destruct n as [|n]; [by left | right].
  replace (S n - 1) with n by lia. nia.
Qed.

Lemma chunk_text_windows text :
  chunk_text text =
  (fun i => py_slice text (1800 * i) (1800 * i + 2000))
    <$> seq 0 ((String.length text + 1799) / 1800).
Proof.
  unfold chunk_text. rewrite py_range_0 by lia.
  rewrite <- list_fmap_compose.
  replace (String.length text + 1800 - 1) with (String.length text + 1799) by lia.
  apply list_fmap_ext. intros _ k _. cbn [compose].
  by replace (k * 1800) with (1800 * k) by lia.
Qed.

Lemma chunk_text_lookup text i c :
  chunk_text text !! i = Some c ↔
  i < (String.length text + 1799) / 1800 ∧ c = py_slice text (1800 * i) (1800 * i + 2000).
Proof.
  rewrite chunk_text_windows, list_lookup_fmap. split.
  - intros H. destruct (seq 0 _ !! i) as [k|] eqn:Hk; [|done].
    apply lookup_seq in Hk as [-> Hlt]. injection H as <-. done.
  - intros [Hlt ->]. by rewrite (lookup_seq_lt _ _ _ Hlt).
Qed.

Lemma concat_windows {A} n : ∀ (step : nat) (l : list A),
  0 < step → length l ≤ n * step →
  concat ((fun i => take step (drop (i * step) l)) <$> seq 0 n) = l.
Proof.
  induction n as [|n IH]; intros step l Hstep Hlen.
  - destruct l; [done | simpl in Hlen; lia].
  - rewrite fmap_seq_shift. cbn [concat]. rewrite drop_0.
    trans (take step l ++ drop step l); [| apply take_drop]. f_equal.
    etrans; [| apply (IH step (drop step l)); [done | rewrite length_drop; lia]].
    f_equal. apply list_fmap_ext. intros _ k _.
    rewrite drop_drop. f_equal.
Qed.

(** ** Ingestion: the first write (C7, C10) *)

Lemma process_docx_new_source w path st data doc :
  upload_dir st !! path = Some data →
  parse_docx w data = Some doc →
  known_source st (basename path) = false →
  process_docx w path st =
    (collection_add w
       (chunk_ids (basename path) (length (chunk_text (extract_text doc))))
       (chunk_text (extract_text doc))
       (replicate (length (chunk_text (extract_text doc)))
          (text_metadata (basename path))) ;;
     queue_images w (basename path) (rels doc) 0) st.
Proof.
  intros Hdata Hparse Hnew. unfold process_docx, DocxDocument, known_source in *.
  simpl_M. rewrite Hdata. simpl_M. rewrite Hparse. simpl_M.
  by destruct (store_ids_where_source (index st) (basename path)).
Qed.

Lemma collection_add_then w ids docs metas (k : M unit) st :
  ∃ r st' log,
    (collection_add w ids docs metas ;; k) st = (r, st', EvAdd ids docs metas :: log).
Proof.
  unfold collection_add. simpl_M.
  destruct (index_accepts w ids); simpl_M; [| eauto].
  destruct (k _) as [[r st'] l]. eauto.
Qed.

Lemma chunk_ids_lookup file_name n i :
  i < n → chunk_ids file_name n !! i = Some (file_name +:+ "_t_" +:+ py_str_nat i).
Proof.
  intros Hlt. unfold chunk_ids. by rewrite list_lookup_fmap, (lookup_seq_lt _ _ _ Hlt).
Qed.

Lemma chunk_overlap text i c c' :
  chunk_text text !! i = Some c →
  chunk_text text !! S i = Some c' →
  shared_tail c = py_slice c' 0 200 ∧
  String.length (shared_tail c) = min 200 (String.length text - 1800 * S i).
Proof.
  intros [Hi ->]%chunk_text_lookup [HSi ->]%chunk_text_lookup.
  assert (Heq : shared_tail (py_slice text (1800 * i) (1800 * i + 2000))
                = py_slice (py_slice text (1800 * S i) (1800 * S i + 2000)) 0 200).
  { apply chars_inj. unfold shared_tail.
    rewrite !slice_chars, slice_length. apply list_eq. intros j.
    rewrite !lookup_take, !lookup_drop, !lookup_take, !lookup_drop.
    repeat case_decide; try lia; try done;
      first [ f_equal; lia
            | symmetry; apply lookup_ge_None_2; rewrite <- strlen_chars; lia
            | apply lookup_ge_None_2; rewrite <- strlen_chars; lia ]. }
  split; [exact Heq |]. rewrite Heq, !slice_length. lia.
Qed.

Lemma chunks_rebuild text :
  py_join "" ((fun c => py_slice c 0 1800) <$> chunk_text text) = text.
Proof.
  apply chars_inj. rewrite chars_join_empty, chunk_text_windows.
  rewrite <- !list_fmap_compose.
  pose proof (Nat.div_mod_eq (String.length text + 1799) 1800) as Hdm.
  pose proof (Nat.mod_upper_bound (String.length text + 1799) 1800) as Hmod.
  etrans; [| apply (concat_windows ((String.length text + 1799) / 1800) 1800);
             [lia | rewrite <- strlen_chars; lia]].
  f_equal. apply list_fmap_ext. intros _ k _. cbn [compose].
  rewrite !slice_chars, drop_0, take_take.
  replace (1800 * k + 2000 - 1800 * k) with 2000 by lia.
  replace (1800 - 0) with 1800 by lia.
  replace (1800 `min` 2000) with 1800 by lia.
  by replace (1800 * k) with (k * 1800) by lia.
Qed.

(** C7 (amended). A new source whose extracted text has L > 0 characters is
    written with one bulk add of ceiling(L/1800) chunks. Chunk i is the
    window text[1800*i : 1800*i + 2000], of min(2000, L - 1800*i)
    characters; its id is file_name_t_i and its metadata is source =
    file_name, type = text. Consecutive chunks i and i+1 share the characters
    of chunk i from offset 1800 on, which open chunk i+1: there are
    min(200, L - 1800*(i+1)) of them, so 200 unless the text ends inside
    the overlap. Joining the first 1800 characters of every chunk gives the
    text back. *)
Theorem chunking_overlapping_windows (w : world) (st : state) (path : string)
    (data : list Byte.byte) (doc : docx) :
  upload_dir st !! path = Some data →
  parse_docx w data = Some doc →
  known_source st (basename path) = false →
  0 < String.length (extract_text doc) →
  let file_name := basename path in
  let text := extract_text doc in
  let L := String.length text in
  ∃ r st' log ids chunks metas,
    process_docx w path st = (r, st', EvAdd ids chunks metas :: log) ∧
    chunks = chunk_text text ∧
    length chunks = (L + 1799) / 1800 ∧
    (∀ i c, chunks !! i = Some c →
       c = py_slice text (1800 * i) (1800 * i + 2000) ∧
       String.length c = min 2000 (L - 1800 * i) ∧
       0 < String.length c ≤ 2000 ∧
       ids !! i = Some (file_name +:+ "_t_" +:+ py_str_nat i) ∧
       metas !! i = Some {[ "source" := MStr file_name; "type" := MStr "text" ]}) ∧
    (∀ i c c', chunks !! i = Some c → chunks !! S i = Some c' →
       shared_tail c = py_slice c' 0 200 ∧
       String.length (shared_tail c) = min 200 (L - 1800 * S i) ∧
       (200 ≤ String.length c' → String.length (shared_tail c) = 200)) ∧
    py_join "" ((fun c => py_slice c 0 1800) <$> chunks) = text.
Proof.
  intros Hdata Hparse Hnew Hlen file_name text L.
  rewrite (process_docx_new_source _ _ _ _ _ Hdata Hparse Hnew).
  fold file_name text.
  destruct (collection_add_then w (chunk_ids file_name (length (chunk_text text)))
              (chunk_text text)
              (replicate (length (chunk_text text)) (text_metadata file_name))
              (queue_images w file_name (rels doc) 0) st) as (r & st' & log & Hrun).
  exists r, st', log. eexists _, _, _. split; [exact Hrun |].
  split; [done |].
  assert (Hcount : length (chunk_text text) = (L + 1799) / 1800).
  { by rewrite chunk_text_windows, length_fmap, length_seq. }
  split; [exact Hcount |]. split; [| split].
  - intros i c Hc. pose proof Hc as [Hi ->]%chunk_text_lookup. fold L in Hi.
    pose proof (Nat.div_mod_eq (L + 1799) 1800) as Hdm.
    pose proof (Nat.mod_upper_bound (L + 1799) 1800) as Hmod.
    rewrite slice_length. fold L.
    split; [done |]. split; [lia |]. split; [lia |]. split.
    + apply chunk_ids_lookup. lia.
    + rewrite lookup_replicate_2 by lia. done.
  - intros i c c' Hc Hc'.
    destruct (chunk_overlap text i c c' Hc Hc') as [Hshare Hsize].
    fold L in Hsize. split; [done |]. split; [done |].
    apply chunk_text_lookup in Hc' as [_ ->]. rewrite slice_length. fold L. lia.
  - apply chunks_rebuild.
Qed.

Lemma chunking_overlapping_windows_witness :
  ∃ r st' log ids metas,
    process_docx demo_world demo_path uploaded_state
      = (r, st', EvAdd ids (chunk_text (extract_text demo_docx)) metas :: log) ∧
    ids !! 0 = Some "f.docx_t_0".
Proof.
  destruct (chunking_overlapping_windows demo_world uploaded_state demo_path [] demo_docx)
    as (r & st' & log & ids & chunks & metas & Hrun & -> & _ & Hchunk & _).
  - reflexivity.
  - reflexivity.
  - reflexivity.
  - vm_compute. lia.
  - exists r, st', log, ids, metas. split; [exact Hrun |].
    destruct (Hchunk 0 (extract_text demo_docx)) as (_ & _ & _ & Hid & _).
    + reflexivity.
    + exact Hid.
Defined.

(** C7 as first stated: every two consecutive chunks share exactly 200
    characters. A text of 1900 letters is cut into a chunk of 1900 and a chunk
    of 100 characters, which share 100. *)
Lemma chunk_overlap_not_always_200 :
  ¬ (∀ doc : docx,
       0 < String.length (extract_text doc) →
       ∀ i c c',
         chunk_text (extract_text doc) !! i = Some c →
         chunk_text (extract_text doc) !! S i = Some c' →
         String.length (shared_tail c) = 200).
Proof.
  intros H.
  assert (Hlen : 0 < String.length (extract_text long_docx)) by (vm_compute; lia).
  assert (H0 : chunk_text (extract_text long_docx) !! 0 = Some (letters 1900))
    by (vm_compute; reflexivity).
  assert (H1 : chunk_text (extract_text long_docx) !! 1 = Some (letters 100))
    by (vm_compute; reflexivity).
  specialize (H long_docx Hlen 0 _ _ H0 H1).
  vm_compute in H. discriminate H.
Qed.

Lemma lstrip_whitespace p : whitespace_only p → py_lstrip p = "".
Proof.
  unfold whitespace_only. induction p as [|c p IH]; [done |].
  cbn [list_ascii_of_string py_lstrip]. intros [Hc Hp]%Forall_cons. rewrite Hc. auto.
Qed.

Lemma strip_whitespace p : whitespace_only p → py_strip p = "".
Proof. intros H. unfold py_strip. by rewrite (lstrip_whitespace p H). Qed.

Lemma extract_text_blank doc :
  Forall whitespace_only (paragraphs doc) → extract_text doc = "".
Proof.
  unfold extract_text. intros H.
  induction H as [|p ps Hp _ IH]; [done |].
  rewrite filter_cons_False; [exact IH |].
  rewrite (strip_whitespace p Hp). done.
Qed.

(** C10. When every paragraph of the document is empty or whitespace-only,
    the extracted text is empty, no chunk and no passage id is made for the
    source, and the first call of the ingestion is the bulk add with empty
    id, document and metadata lists: it precedes whatever is done for the
    embedded images. *)
Theorem blank_document_adds_nothing (w : world) (st : state) (path : string)
    (data : list Byte.byte) (doc : docx) :
  upload_dir st !! path = Some data →
  parse_docx w data = Some doc →
  known_source st (basename path) = false →
  Forall whitespace_only (paragraphs doc) →
  extract_text doc = "" ∧
  chunk_text (extract_text doc) = [] ∧
  chunk_ids (basename path) (length (chunk_text (extract_text doc))) = [] ∧
  ∃ r st' log, process_docx w path st = (r, st', EvAdd [] [] [] :: log).
Proof.
  intros Hdata Hparse Hnew Hblank.
  pose proof (extract_text_blank doc Hblank) as Htext.
  rewrite (process_docx_new_source _ _ _ _ _ Hdata Hparse Hnew), Htext.
  repeat split; [done.. |].
  apply collection_add_then.
Qed.

Lemma blank_document_adds_nothing_witness :
  ∃ r st' log,
    process_docx (world_for blank_docx) demo_path uploaded_state
      = (r, st', EvAdd [] [] [] :: log).
Proof.
  destruct (blank_document_adds_nothing (world_for blank_docx) uploaded_state
              demo_path [] blank_docx) as (_ & _ & _ & Hrun).
  - reflexivity.
  - reflexivity.
  - reflexivity.
  - repeat constructor.
  - exact Hrun.
Defined.

(** ** Ingestion is idempotent per source name (C2) *)

Lemma store_ids_where_source_elem idx file_name id :
  id ∈ store_ids_where_source idx file_name ↔
  ∃ e, idx !! id = Some e ∧ metadata e !! "source" = Some (MStr file_name).
Proof.
  unfold store_ids_where_source. rewrite list_elem_of_fmap. split.
  - intros ([id' e] & -> & Hin). apply elem_of_map_to_list in Hin.
    apply map_lookup_filter_Some in Hin as [Hid Hsrc]. eauto.
  - intros (e & Hid & Hsrc). exists (id, e). split; [done |].
    apply elem_of_map_to_list. by apply map_lookup_filter_Some.
Qed.

Lemma known_source_spec st file_name :
  known_source st file_name = true ↔
  ∃ id e, index st !! id = Some e ∧ metadata e !! "source" = Some (MStr file_name).
Proof.
  unfold known_source. split.
  - destruct (store_ids_where_source (index st) file_name) as [|id ids] eqn:Hids; [done |].
    intros _. exists id. apply store_ids_where_source_elem. rewrite Hids. by left.
  - intros (id & Hid%store_ids_where_source_elem).
    destruct (store_ids_where_source (index st) file_name); [|done].
    by apply elem_of_nil in Hid.
Qed.

(** C2. Ingesting a document whose file name is already the source of some
    entry returns normally, leaves the collection, the queue directory and
    the uploads as they are, and makes no call: nothing is added, updated,
    removed or queued. *)
Theorem process_docx_known_source_noop (w : world) (st : state) (path : string)
    (data : list Byte.byte) (doc : docx) :
  upload_dir st !! path = Some data →
  parse_docx w data = Some doc →
  (∃ id e, index st !! id = Some e ∧
           metadata e !! "source" = Some (MStr (basename path))) →
  process_docx w path st = (Ok tt, st, []).
Proof.
  intros Hdata Hparse Hknown%known_source_spec.
  unfold process_docx, DocxDocument, known_source in *.
  simpl_M. rewrite Hdata. simpl_M. rewrite Hparse. simpl_M.
  by destruct (store_ids_where_source (index st) (basename path)).
Qed.

Lemma process_docx_known_source_noop_witness :
  let st1 := (process_docx demo_world demo_path uploaded_state).1.2 in
  length (map_to_list (index st1)) = 3 ∧
  process_docx demo_world demo_path st1 = (Ok tt, st1, []).
Proof.
  split; [vm_compute; reflexivity |].
  apply (process_docx_known_source_noop demo_world _ demo_path [] demo_docx).
  - vm_compute. reflexivity.
  - reflexivity.
  - exists "f.docx_t_0", (Entry (extract_text demo_docx) (text_metadata "f.docx")).
    split; vm_compute; reflexivity.
Defined.

(** ** A failed ingestion (C3) *)

Lemma queue_images_raise w file_name rels : ∀ img_index st e st' log,
  queue_images w file_name rels img_index st = (Raise e, st', log) →
  e = IndexWriteError ∧ 2 ≤ length log.
Proof.
  induction rels as [|[target_ref blob] rels IH]; intros img_index st e st' log.
  - done.
  - cbn [queue_images]. destruct (py_in "image" target_ref); [| apply IH].
    unfold open_write, collection_add. simpl_M.
    destruct (index_accepts w _); simpl_M.
    + destruct (queue_images w file_name rels (S img_index) _) as [[r st2] l2] eqn:Hrest.
      intros [= -> <- <-]. apply IH in Hrest as [-> Hlen]. split; [done |]. simpl. lia.
    + intros [= <- <- <-]. split; [done |]. simpl. lia.
Qed.

(** C3 as first stated: whenever [process_docx] raises for a source that
    was not known, the source is still not known afterwards. When the
    collection refuses the entry of the first image, the text entry written
    before it stays and makes the source known. *)
Lemma failed_ingestion_can_leave_source_known :
  ¬ (∀ (w : world) (st st' : state) (path : string) (e : exn) (log : list event),
       known_source st (basename path) = false →
       process_docx w path st = (Raise e, st', log) →
       known_source st' (basename path) = false).
Proof.
  intros H.
  specialize (H (world_refusing demo_docx ["f.docx_img_0"]) uploaded_state
                (process_docx (world_refusing demo_docx ["f.docx_img_0"])
                   demo_path uploaded_state).1.2
                demo_path IndexWriteError
                (process_docx (world_refusing demo_docx ["f.docx_img_0"])
                   demo_path uploaded_state).2).
  assert (Hknown : known_source
            (process_docx (world_refusing demo_docx ["f.docx_img_0"])
               demo_path uploaded_state).1.2 (basename demo_path) = true)
    by (vm_compute; reflexivity).
  rewrite H in Hknown; [discriminate Hknown | reflexivity | vm_compute; reflexivity].
Qed.

(** C3 (amended). If [process_docx] fails for a source that was not known,
    on opening or parsing the file or on its first write to the collection
    (the bulk add of the text chunks), then nothing has been written: the
    state is the one before the call, the source is still not known, and
    ingesting the same path again goes as far as the bulk add again instead
    of returning at once. *)
Theorem failed_ingestion_before_first_write (w : world) (st st' : state)
    (path : string) (e : exn) (log : list event) :
  known_source st (basename path) = false →
  process_docx w path st = (Raise e, st', log) →
  e = PackageNotFoundError ∨ e = ParseError ∨
    (∃ ids docs metas, log = [EvAdd ids docs metas]) →
  st' = st ∧
  known_source st' (basename path) = false ∧
  ∀ w2 data doc,
    upload_dir st' !! path = Some data →
    parse_docx w2 data = Some doc →
    ∃ r st'' log2,
      process_docx w2 path st' =
        (r, st'',
         EvAdd (chunk_ids (basename path) (length (chunk_text (extract_text doc))))
               (chunk_text (extract_text doc))
               (replicate (length (chunk_text (extract_text doc)))
                  (text_metadata (basename path))) :: log2).
Proof.
  intros Hnew Hrun Hearly.
  assert (Hsame : st' = st).
  { revert Hrun. unfold process_docx, DocxDocument. simpl_M.
    destruct (upload_dir st !! path) as [data|]; simpl_M; [| by intros [= <- <- <-]].
    destruct (parse_docx w data) as [doc|]; simpl_M; [| by intros [= <- <- <-]].
    unfold known_source in Hnew.
    destruct (store_ids_where_source (index st) (basename path)); [| done].
    unfold collection_add. simpl_M.
    destruct (index_accepts w _); simpl_M; [| by intros [= <- <- <-]].
    destruct (queue_images w _ _ _ _) as [[r st2] l2] eqn:Himgs.
    intros [= -> <- <-]. apply queue_images_raise in Himgs as [-> Hlen].
    destruct Hearly as [|[|(ids & docs & metas & [= _ _ _ ->])]];
      [done | done | simpl in Hlen; lia]. }
  subst st'. split; [done |]. split; [done |].
  intros w2 data doc Hdata Hparse.
  rewrite (process_docx_new_source _ _ _ _ _ Hdata Hparse Hnew).
  apply collection_add_then.
Qed.

Lemma failed_ingestion_before_first_write_witness :
  (process_docx (world_refusing demo_docx ["f.docx_t_0"]) demo_path uploaded_state).1.2
    = uploaded_state.
Proof.
  apply (failed_ingestion_before_first_write
           (world_refusing demo_docx ["f.docx_t_0"]) uploaded_state _ demo_path
           IndexWriteError
           (process_docx (world_refusing demo_docx ["f.docx_t_0"])
              demo_path uploaded_state).2).
  - reflexivity.
  - vm_compute. reflexivity.
  - right. right. eexists _, _, _. vm_compute. reflexivity.
Defined.

(** ** One artifact of a sweep *)

Lemma store_get_metadatas_one idx id :
  store_get_metadatas idx [id] =
  match idx !! id with
  | Some e => [metadata e]
  | None => []
  end.
Proof. unfold store_get_metadatas. cbn. by destruct (idx !! id). Qed.

Lemma store_update_one idx id d m :
  store_update [id] [d] [m] idx = alter (fun e => Entry d (m ∪ metadata e)) id idx.
Proof. done. Qed.

(** The run of [handle_image], branch by branch. *)
Lemma handle_image_run w img_path st :
  handle_image w img_path st =
  match index st !! path_stem img_path with
  | None => (Ok tt, st, [])
  | Some e =>
      if get_truthy (metadata e !! "processed")
      then (Ok tt, set_queue_dir (fs_unlink img_path (queue_dir st)) st, [EvUnlink img_path])
      else
        match fs_read img_path (queue_dir st) with
        | None => (Raise FileNotFoundError, st, [EvRead img_path])
        | Some data =>
            match decode_png_b64 w data with
            | None => (Raise DecodeError, st, [EvRead img_path])
            | Some image_b64 =>
                match describe_reply w img_path image_b64 with
                | None => (Raise VisionError, st,
                           [EvRead img_path; EvVision img_path image_b64])
                | Some description =>
                    match metadata e !! "source" with
                    | None => (Raise (KeyError "source"), st,
                               [EvRead img_path; EvVision img_path image_b64])
                    | Some source =>
                        if index_accepts w [path_stem img_path]
                        then (Ok tt,
                              set_queue_dir (fs_unlink img_path (queue_dir st))
                                (set_index
                                   (alter (fun e' => Entry description
                                                       (processed_metadata source ∪ metadata e'))
                                      (path_stem img_path) (index st)) st),
                              [EvRead img_path; EvVision img_path image_b64;
                               EvUpdate [path_stem img_path] [description]
                                 [processed_metadata source];
                               EvUnlink img_path])
                        else (Raise IndexWriteError, st,
                              [EvRead img_path; EvVision img_path image_b64;
                               EvUpdate [path_stem img_path] [description]
                                 [processed_metadata source]])
                    end
                end
            end
        end
  end.
Proof.
  unfold handle_image. simpl_M. rewrite store_get_metadatas_one.
  destruct (index st !! path_stem img_path) as [e|]; [| done].
  destruct (get_truthy (metadata e !! "processed")).
  { unfold unlink_missing_ok. by simpl_M. }
  unfold open_read, prepare_image_for_vision, describe_image, dict_getitem,
    collection_update, unlink_missing_ok. simpl_M.
  destruct (fs_read img_path (queue_dir st)) as [data|]; simpl_M; [| done].
  destruct (decode_png_b64 w data) as [image_b64|]; simpl_M; [| done].
  destruct (describe_reply w img_path image_b64) as [description|]; simpl_M; [| done].
  destruct (metadata e !! "source") as [source|]; simpl_M; [| done].
  destruct (index_accepts w [path_stem img_path]); simpl_M; done.
Qed.

Lemma awaits_analysis_lookup idx img_path :
  awaits_analysis idx img_path =
  match idx !! path_stem img_path with
  | Some e => negb (get_truthy (metadata e !! "processed"))
  | None => false
  end.
Proof.
  unfold awaits_analysis. rewrite store_get_metadatas_one.
  by destruct (idx !! path_stem img_path).
Qed.

Lemma fs_read_unlink_ne name p dir :
  name ≠ p → fs_read name (fs_unlink p dir) = fs_read name dir.
Proof.
  intros Hne. unfold fs_unlink. induction dir as [|[n d] dir IH]; [done |].
  cbn [fs_read]. destruct (decide (n = p)) as [->|Hnp].
  - rewrite filter_cons_False by (cbn; auto). rewrite IH.
    destruct (decide (p = name)); [congruence | done].
  - rewrite filter_cons_True by done. cbn [fs_read]. by rewrite IH.
Qed.

Lemma in_unlink name p dir :
  name ∈ (fs_unlink p dir).*1 ↔ name ∈ dir.*1 ∧ name ≠ p.
Proof.
  unfold fs_unlink. rewrite !list_elem_of_fmap. split.
  - intros ([n d] & -> & [Hne Hin]%list_elem_of_filter). split; [| done].
    exists (n, d). done.
  - intros [([n d] & -> & Hin) Hne]. exists (n, d). split; [done |].
    apply list_elem_of_filter. done.
Qed.

Lemma processed_metadata_processed source old :
  (processed_metadata source ∪ old) !! "processed" = Some (MBool true).
Proof. apply lookup_union_Some_l. done. Qed.

Lemma processed_metadata_source source old :
  (processed_metadata source ∪ old) !! "source" = Some source.
Proof. apply lookup_union_Some_l. done. Qed.

Ltac log_mem :=
  intros ? Hmem; cbn in Hmem;
  repeat (apply elem_of_cons in Hmem as [Hmem|Hmem]; [congruence |]);
  by apply elem_of_nil in Hmem.

(** Everything one artifact's handling can do to the state and the log. *)
Lemma handle_image_step w p st r st1 log :
  handle_image w p st = (r, st1, log) →
  upload_dir st1 = upload_dir st ∧
  (∀ e, r = Raise e → st1 = st) ∧
  (∀ name, name ≠ p → fs_read name (queue_dir st1) = fs_read name (queue_dir st)) ∧
  (∀ name, in_queue st1 name → in_queue st name) ∧
  (∀ name, name ≠ p → in_queue st name → in_queue st1 name) ∧
  (∀ id, id ≠ path_stem p → index st1 !! id = index st !! id) ∧
  (awaits_analysis (index st) p = false →
     index st1 = index st ∧ reads log = [] ∧ submitted log = [] ∧ updated_ids log = []) ∧
  (index st !! path_stem p = None → st1 = st ∧ log = []) ∧
  (∀ id e, index st !! id = Some e →
     index st1 !! id = Some e ∨ (id = path_stem p ∧ processed st1 id = true)) ∧
  (∀ id, index st !! id = None → index st1 !! id = None) ∧
  (∀ q, q ∈ reads log → q = p) ∧
  (∀ q, q ∈ submitted log → q = p) ∧
  (∀ id, id ∈ updated_ids log → id = path_stem p) ∧
  (∀ q, EvUnlink q ∈ log → q = p).
Proof.
  rewrite handle_image_run, awaits_analysis_lookup. unfold in_queue, processed.
  destruct (index st !! path_stem p) as [e|] eqn:He.
  2:{ intros [= <- <- <-]. repeat split; try done; auto;
        intros ? H; cbn in H; by apply elem_of_nil in H. }
  destruct (get_truthy (metadata e !! "processed")) eqn:Hproc.
  { intros [= <- <- <-]. cbn [queue_dir index upload_dir set_queue_dir negb].
    repeat split; try done; auto.
    - intros name Hne. by apply fs_read_unlink_ne.
    - intros name Hin. by apply in_unlink in Hin as [? _].
    - intros name Hne Hin. by apply in_unlink.
    - intros q H. cbn in H. by apply elem_of_nil in H.
    - intros q H. cbn in H. by apply elem_of_nil in H.
    - intros q H. cbn in H. by apply elem_of_nil in H.
    - intros q H. apply list_elem_of_singleton in H. congruence. }
  cbn [negb].
  destruct (fs_read p (queue_dir st)) as [data|].
  2:{ intros [= <- <- <-]. repeat split; try done; auto;
        log_mem. }
  destruct (decode_png_b64 w data) as [image_b64|].
  2:{ intros [= <- <- <-]. repeat split; try done; auto;
        log_mem. }
  destruct (describe_reply w p image_b64) as [description|].
  2:{ intros [= <- <- <-]. repeat split; try done; auto;
        log_mem. }
  destruct (metadata e !! "source") as [source|].
  2:{ intros [= <- <- <-]. repeat split; try done; auto;
        log_mem. }
  destruct (index_accepts w [path_stem p]).
  2:{ intros [= <- <- <-]. repeat split; try done; auto;
        log_mem. }
  intros [= <- <- <-].
  cbn [queue_dir index upload_dir set_queue_dir set_index].
  repeat split; try done.
  - intros name Hne. by apply fs_read_unlink_ne.
  - intros name Hin. by apply in_unlink in Hin as [? _].
  - intros name Hne Hin. by apply in_unlink.
  - intros id Hne. by rewrite lookup_alter_ne.
  - intros id e0 Hid. destruct (decide (id = path_stem p)) as [->|Hne].
    + right. split; [done |]. rewrite lookup_alter_eq, He. cbn.
      by rewrite processed_metadata_processed.
    + left. by rewrite lookup_alter_ne.
  - intros id Hid. destruct (decide (id = path_stem p)) as [->|Hne]; [congruence |].
    by rewrite lookup_alter_ne.
  - log_mem.
  - log_mem.
  - log_mem.
  - log_mem.
Qed.

(** ** A whole sweep *)

Lemma sweep_nil w st : sweep w [] st = (Ok tt, st, []).
Proof. done. Qed.

Lemma sweep_cons w p rest st :
  sweep w (p :: rest) st =
  match handle_image w p st with
  | (r, st1, l1) =>
      match sweep w rest st1 with
      | (r2, st2, l2) => (r2, st2, body_log r l1 ++ l2)
      end
  end.
Proof.
  unfold sweep. cbn [for_each]. unfold mbind, M_bind, try_except, emit, body_log.
  destruct (handle_image w p st) as [[[[]|e] st1] l1];
    by destruct (for_each _ rest st1) as [[r2 st2] l2]; rewrite ?app_nil_r.
Qed.

(** The sweep never raises: the loop goes through every artifact. *)
Lemma sweep_total w images : ∀ st, ∃ st' log, sweep w images st = (Ok tt, st', log).
Proof.
  induction images as [|p rest IH]; intros st; [by eexists _, _ |].
  rewrite sweep_cons. destruct (handle_image w p st) as [[r st1] l1].
  destruct (IH st1) as (st2 & l2 & ->). by eexists _, _.
Qed.

(** A property of the state and of the log so far that every pass of the
    loop body keeps holds after the sweep. *)
Lemma sweep_invariant w (I : state → list event → Prop) images :
  (∀ p st acc r st1 log,
     p ∈ images → I st acc → handle_image w p st = (r, st1, log) →
     I st1 (acc ++ body_log r log)) →
  ∀ st acc st' log,
    I st acc → sweep w images st = (Ok tt, st', log) → I st' (acc ++ log).
Proof.
  induction images as [|p rest IH]; intros Hstep st acc st' log HI.
  - intros [= <- <-]. by rewrite app_nil_r.
  - rewrite sweep_cons. destruct (handle_image w p st) as [[r st1] l1] eqn:Hp.
    destruct (sweep w rest st1) as [[r2 st2] l2] eqn:Hrest.
    intros [= -> <- <-]. rewrite app_assoc. eapply IH; [| | exact Hrest].
    + intros q s a r' s1 l Hq. apply Hstep. by right.
    + eapply Hstep; [by left | exact HI | exact Hp].
Qed.

(** If every pass for another artifact keeps [I], the pass for [target] turns it into [J],
    and every pass keeps [J], then [J] holds after a sweep that lists
    [target]. *)
Lemma sweep_establishes w (I J : state → list event → Prop) images target :
  target ∈ images →
  (∀ p st acc r st1 log,
     p ∈ images → p ≠ target → I st acc → handle_image w p st = (r, st1, log) →
     I st1 (acc ++ body_log r log)) →
  (∀ p st acc r st1 log,
     p ∈ images → J st acc → handle_image w p st = (r, st1, log) →
     J st1 (acc ++ body_log r log)) →
  (∀ st acc r st1 log,
     I st acc → handle_image w target st = (r, st1, log) →
     J st1 (acc ++ body_log r log)) →
  ∀ st acc st' log,
    I st acc → sweep w images st = (Ok tt, st', log) → J st' (acc ++ log).
Proof.
  induction images as [|p rest IH]; intros Hin HI HJ Hturn st acc st' log Hst.
  - by apply elem_of_nil in Hin.
  - rewrite sweep_cons. destruct (handle_image w p st) as [[r st1] l1] eqn:Hp.
    destruct (sweep w rest st1) as [[r2 st2] l2] eqn:Hrest.
    intros [= -> <- <-]. rewrite app_assoc.
    destruct (decide (p = target)) as [->|Hne].
    + eapply (sweep_invariant w J rest); [| | exact Hrest].
      * intros q s a r' s1 l Hq. apply HJ. by right.
      * eapply Hturn; [exact Hst | exact Hp].
    + apply elem_of_cons in Hin as [Heq|Hin]; [congruence |].
      eapply IH; [exact Hin | | | exact Hturn | | exact Hrest].
      * intros q s a r' s1 l Hq. apply HI. by right.
      * intros q s a r' s1 l Hq. apply HJ. by right.
      * eapply HI; [by left | exact Hne | exact Hst | exact Hp].
Qed.

Lemma elem_of_reads q log : q ∈ reads log ↔ EvRead q ∈ log.
Proof.
  unfold reads. rewrite list_elem_of_bind. split.
  - intros (ev & Hq & Hev). destruct ev; try by apply elem_of_nil in Hq.
    apply list_elem_of_singleton in Hq. by subst.
  - intros Hev. exists (EvRead q). split; [by left | done].
Qed.

Lemma elem_of_submitted q log : q ∈ submitted log ↔ ∃ b, EvVision q b ∈ log.
Proof.
  unfold submitted. rewrite list_elem_of_bind. split.
  - intros (ev & Hq & Hev). destruct ev; try by apply elem_of_nil in Hq.
    apply list_elem_of_singleton in Hq. subst. eauto.
  - intros [b Hev]. exists (EvVision q b). split; [by left | done].
Qed.

Lemma elem_of_updated_ids id log :
  id ∈ updated_ids log ↔ ∃ ids docs metas, id ∈ ids ∧ EvUpdate ids docs metas ∈ log.
Proof.
  unfold updated_ids. rewrite list_elem_of_bind. split.
  - intros (ev & Hq & Hev). destruct ev; try by apply elem_of_nil in Hq. eauto.
  - intros (ids & docs & metas & Hid & Hev). exists (EvUpdate ids docs metas). done.
Qed.

Lemma reads_app l1 l2 : reads (l1 ++ l2) = reads l1 ++ reads l2.
Proof. apply bind_app. Qed.

Lemma submitted_app l1 l2 : submitted (l1 ++ l2) = submitted l1 ++ submitted l2.
Proof. apply bind_app. Qed.

Lemma updated_ids_app l1 l2 : updated_ids (l1 ++ l2) = updated_ids l1 ++ updated_ids l2.
Proof. apply bind_app. Qed.

Lemma body_log_reads r log : reads (body_log r log) = reads log.
Proof. unfold body_log. rewrite reads_app. destruct r; cbn; by rewrite app_nil_r. Qed.

Lemma body_log_submitted r log : submitted (body_log r log) = submitted log.
Proof. unfold body_log. rewrite submitted_app. destruct r; cbn; by rewrite app_nil_r. Qed.

Lemma body_log_updated_ids r log : updated_ids (body_log r log) = updated_ids log.
Proof. unfold body_log. rewrite updated_ids_app. destruct r; cbn; by rewrite app_nil_r. Qed.

Lemma body_log_unlink r log q : EvUnlink q ∈ body_log r log ↔ EvUnlink q ∈ log.
Proof.
  unfold body_log. rewrite elem_of_app. split; [| by left].
  intros [H|H]; [done |]. destruct r; [by apply elem_of_nil in H |].
  by apply list_elem_of_singleton in H.
Qed.

Lemma elem_of_glob_png p dir :
  p ∈ glob_png dir ↔ p ∈ dir.*1 ∧ py_endswith ".png" p = true.
Proof. unfold glob_png. rewrite list_elem_of_filter. tauto. Qed.

Lemma iteration_run w st :
  ∃ st' log,
    sweep w (glob_png (queue_dir st)) st = (Ok tt, st', log) ∧
    vision_worker_iteration w st = (Ok tt, st', log ++ [EvSleep 10]).
Proof.
  unfold vision_worker_iteration. simpl_M.
  destruct (glob_png (queue_dir st)) as [|p rest] eqn:Hglob.
  - eexists _, _. split; [apply sweep_nil | done].
  - destruct (sweep_total w (p :: rest) st) as (st' & log & Hsweep).
    exists st', log. split; [done |].
    unfold mbind, M_bind. rewrite Hsweep. done.
Qed.

(** ** Artifacts without an entry (C6) *)

(** C6 as first stated: after the sweep, an artifact whose id has no entry
    is gone from the queue directory. *)
Lemma orphan_artifact_is_not_deleted :
  ¬ (∀ (w : world) (st : state) (p : string),
       p ∈ glob_png (queue_dir st) →
       index st !! path_stem p = None →
       ¬ in_queue (vision_worker_iteration w st).1.2 p).
Proof.
  intros H.
  apply (H demo_world orphan_state "orphan_img_0.png").
  - vm_compute. by left.
  - reflexivity.
  - vm_compute. by left.
Qed.

(** C6 (amended). An artifact whose id has no entry in the collection is
    passed over by the sweep that visits it: it is not opened, not submitted
    to the vision model and not unlinked, so it is still in the queue
    directory after the sweep, still without an entry, and the next listing
    yields it again. *)
Theorem orphan_artifact_is_skipped (w : world) (st : state) (p : string) :
  p ∈ glob_png (queue_dir st) →
  index st !! path_stem p = None →
  ∃ st' log,
    vision_worker_iteration w st = (Ok tt, st', log) ∧
    in_queue st' p ∧
    p ∈ glob_png (queue_dir st') ∧
    index st' !! path_stem p = None ∧
    ¬ EvUnlink p ∈ log ∧ ¬ p ∈ reads log ∧ ¬ p ∈ submitted log.
Proof.
  intros [Hin Hpng]%elem_of_glob_png Horphan.
  destruct (iteration_run w st) as (st' & log & Hsweep & ->).
  exists st', (log ++ [EvSleep 10]). split; [done |].
  pose (I := fun (s : state) (acc : list event) =>
               index s !! path_stem p = None ∧ in_queue s p ∧
               ¬ EvUnlink p ∈ acc ∧ ¬ p ∈ reads acc ∧ ¬ p ∈ submitted acc).
  assert (HI : I st' ([] ++ log)).
  { eapply (sweep_invariant w I); [| | exact Hsweep].
    - intros q s acc r s1 l _ (Hidx & Hq & Hun & Hrd & Hsub) Hrun.
      apply handle_image_step in Hrun
        as (_ & _ & _ & _ & Hkeep & _ & _ & Hskip & _ & Hnone & Hreads & Hsubm & _ & Hunl).
      assert (Hlog : q = p → s1 = s ∧ l = []) by (intros ->; auto).
      unfold I. rewrite reads_app, submitted_app, body_log_reads, body_log_submitted.
      split; [auto |]. split.
      { destruct (decide (p = q)) as [<-|Hne]; [| auto].
        destruct Hlog as [-> _]; done. }
      split; [| split].
      + rewrite elem_of_app, body_log_unlink. intros [?|Hl]; [done |].
        destruct (Hlog (eq_sym (Hunl _ Hl))) as [_ ->]. by apply elem_of_nil in Hl.
      + rewrite elem_of_app. intros [?|Hl]; [done |].
        destruct (Hlog (eq_sym (Hreads _ Hl))) as [_ ->]. by apply elem_of_nil in Hl.
      + rewrite elem_of_app. intros [?|Hl]; [done |].
        destruct (Hlog (eq_sym (Hsubm _ Hl))) as [_ ->]. by apply elem_of_nil in Hl.
    - unfold I. repeat split; try done; cbn; apply not_elem_of_nil. }
  destruct HI as (Hidx & Hq & Hun & Hrd & Hsub). cbn [app] in *.
  split; [done |]. split; [by apply elem_of_glob_png |]. split; [done |].
  rewrite reads_app, submitted_app, !elem_of_app. cbn.
  repeat split; intros [?|Hl]; try done;
    try (by apply list_elem_of_singleton in Hl); by apply elem_of_nil in Hl.
Qed.

Lemma orphan_artifact_is_skipped_witness :
  in_queue (vision_worker_iteration demo_world orphan_state).1.2 "orphan_img_0.png".
Proof.
  destruct (orphan_artifact_is_skipped demo_world orphan_state "orphan_img_0.png")
    as (st' & log & Hrun & Hin & _).
  - vm_compute. by left.
  - reflexivity.
  - rewrite Hrun. exact Hin.
Defined.

(** ** Failure isolation within a sweep (C5) *)

Lemma handle_image_processed_stable w p st r st1 log id :
  handle_image w p st = (r, st1, log) →
  processed st id = true → processed st1 id = true.
Proof.
  intros Hrun Hproc. unfold processed in Hproc.
  destruct (index st !! id) as [e|] eqn:He; [| done].
  apply handle_image_step in Hrun as (_ & _ & _ & _ & _ & _ & _ & _ & Hent & _).
  destruct (Hent id e He) as [He1|[_ Hdone]]; [| done].
  unfold processed. by rewrite He1.
Qed.

(** The queue directory only loses files during a sweep. *)
Lemma sweep_queue_shrinks w images st st' log name :
  sweep w images st = (Ok tt, st', log) → in_queue st' name → in_queue st name.
Proof.
  intros Hsweep.
  refine (sweep_invariant w (fun s _ => in_queue s name → in_queue st name)
            images _ st [] st' log _ Hsweep); [| done].
  intros p s acc r s1 l _ Hs Hrun Hin. apply Hs.
  apply handle_image_step in Hrun as (_ & _ & _ & Hsub & _). auto.
Qed.

(** An artifact that awaits analysis and is the only one of its id is
    opened by the sweep that lists it. *)
Lemma sweep_attempts w images st st' log a ea :
  a ∈ images →
  (∀ q, q ∈ images → path_stem q = path_stem a → q = a) →
  index st !! path_stem a = Some ea →
  get_truthy (metadata ea !! "processed") = false →
  sweep w images st = (Ok tt, st', log) →
  a ∈ reads log.
Proof.
  intros Ha Huniq Hea Hproc Hsweep.
  refine (sweep_establishes w
            (fun s _ => index s !! path_stem a = Some ea)
            (fun _ acc => a ∈ reads acc) images a Ha _ _ _ st [] st' log Hea Hsweep).
  - intros p s acc r s1 l Hp Hne Hs Hrun.
    apply handle_image_step in Hrun as (_ & _ & _ & _ & _ & Hother & _).
    rewrite Hother; [done |]. intros Heq. apply Hne. by apply Huniq.
  - intros p s acc r s1 l _ Hacc _. rewrite reads_app. apply elem_of_app. by left.
  - intros s acc r s1 l Hs Hrun. rewrite reads_app, body_log_reads.
    apply elem_of_app. right.
    rewrite handle_image_run, Hs, Hproc in Hrun.
    repeat match type of Hrun with
           | context [match ?x with _ => _ end] => destruct x
           end; injection Hrun as <- <- <-; cbn; by left.
Qed.

(** An artifact that awaits analysis, is the only one of its id, and whose
    decoding or vision call fails is left as it was by the sweep. *)
Lemma sweep_keeps_failing w images st st' log a ea data :
  (∀ q, q ∈ images → path_stem q = path_stem a → q = a) →
  index st !! path_stem a = Some ea →
  get_truthy (metadata ea !! "processed") = false →
  fs_read a (queue_dir st) = Some data →
  in_queue st a →
  (decode_png_b64 w data = None ∨
   ∃ i, decode_png_b64 w data = Some i ∧ describe_reply w a i = None) →
  sweep w images st = (Ok tt, st', log) →
  index st' !! path_stem a = Some ea ∧ fs_read a (queue_dir st') = Some data ∧
  in_queue st' a.
Proof.
  intros Huniq Hea Hproc Hread Hin Hfail Hsweep.
  refine (sweep_invariant w
            (fun s _ => index s !! path_stem a = Some ea ∧
                        fs_read a (queue_dir s) = Some data ∧ in_queue s a)
            images _ st [] st' log _ Hsweep); [| done].
  intros p s acc r s1 l Hp (Hs & Hrd & Hq) Hrun.
  destruct (decide (p = a)) as [->|Hne].
  - assert (s1 = s) as ->; [| done].
    rewrite handle_image_run, Hs, Hproc, Hrd in Hrun.
    destruct Hfail as [Hdec|(i & Hdec & Hvis)]; rewrite Hdec in Hrun;
      [| rewrite Hvis in Hrun]; by injection Hrun.
  - apply handle_image_step in Hrun as (_ & _ & Hfs & _ & Hkeep & Hother & _).
    rewrite Hother, Hfs by (try done; intros Heq; apply Hne; by apply Huniq).
    auto.
Qed.

(** An artifact whose handling succeeds has a processed entry after the
    sweep that lists it. *)
Lemma sweep_processes w images st st' log b eb data b64 description source :
  b ∈ images →
  index st !! path_stem b = Some eb →
  metadata eb !! "source" = Some source →
  fs_read b (queue_dir st) = Some data →
  decode_png_b64 w data = Some b64 →
  describe_reply w b b64 = Some description →
  index_accepts w [path_stem b] = true →
  sweep w images st = (Ok tt, st', log) →
  processed st' (path_stem b) = true.
Proof.
  intros Hb Heb Hsrc Hread Hdec Hvis Hacc Hsweep.
  refine (sweep_establishes w
            (fun s _ => processed s (path_stem b) = true ∨
                        (index s !! path_stem b = Some eb ∧
                         fs_read b (queue_dir s) = Some data))
            (fun s _ => processed s (path_stem b) = true) images b Hb _ _ _
            st [] st' log _ Hsweep); [| | | by right].
  - intros p s acc r s1 l _ Hne [Hdone|[Hs Hrd]] Hrun.
    { left. by eapply handle_image_processed_stable. }
    apply handle_image_step in Hrun as (_ & _ & Hfs & _ & _ & _ & _ & _ & Hent & _).
    destruct (Hent _ _ Hs) as [Hs1|[_ Hdone]]; [right | by left].
    split; [done |]. by rewrite Hfs.
  - intros p s acc r s1 l _ Hdone Hrun. by eapply handle_image_processed_stable.
  - intros s acc r s1 l [Hdone|[Hs Hrd]] Hrun.
    { by eapply handle_image_processed_stable. }
    rewrite handle_image_run, Hs in Hrun.
    destruct (get_truthy (metadata eb !! "processed")) eqn:Hproc.
    { injection Hrun as <- <- <-. unfold processed. cbn. by rewrite Hs. }
    rewrite Hrd, Hdec, Hvis, Hsrc, Hacc in Hrun. injection Hrun as <- <- <-.
    unfold processed. cbn. rewrite lookup_alter_eq, Hs. cbn.
    by rewrite processed_metadata_processed.
Qed.

(** C5. Take a sweep that lists the artifacts a and b. Artifact a awaits
    analysis, is the only artifact of its id, and its decoding or its vision
    call fails; the handling of b succeeds. Then the iteration of the worker
    loop ends normally; a was opened (attempted) and b is processed at the
    end; a is still in the queue directory, unprocessed, and any next
    iteration ends normally too and opens a again. *)
Theorem sweep_failure_isolation (w : world) (st : state) (a b : string)
    (ea eb : entry) (data_a data_b : list Byte.byte) (b64 description : string)
    (source : mval) :
  a ∈ glob_png (queue_dir st) →
  b ∈ glob_png (queue_dir st) →
  (∀ q, q ∈ glob_png (queue_dir st) → path_stem q = path_stem a → q = a) →
  index st !! path_stem a = Some ea →
  get_truthy (metadata ea !! "processed") = false →
  fs_read a (queue_dir st) = Some data_a →
  (decode_png_b64 w data_a = None ∨
   ∃ i, decode_png_b64 w data_a = Some i ∧ describe_reply w a i = None) →
  index st !! path_stem b = Some eb →
  metadata eb !! "source" = Some source →
  fs_read b (queue_dir st) = Some data_b →
  decode_png_b64 w data_b = Some b64 →
  describe_reply w b b64 = Some description →
  index_accepts w [path_stem b] = true →
  ∃ st' log,
    vision_worker_iteration w st = (Ok tt, st', log) ∧
    a ∈ reads log ∧
    processed st' (path_stem b) = true ∧
    in_queue st' a ∧
    a ∈ glob_png (queue_dir st') ∧
    processed st' (path_stem a) = false ∧
    ∀ w2, ∃ st'' log2,
      vision_worker_iteration w2 st' = (Ok tt, st'', log2) ∧ a ∈ reads log2.
Proof.
  intros Ha Hb Huniq Hea Hproc Hread_a Hfail Heb Hsrc Hread_b Hdec Hvis Hacc.
  destruct (iteration_run w st) as (st' & log & Hsweep & ->).
  exists st', (log ++ [EvSleep 10]). split; [done |].
  pose proof Ha as [Hin_a Hpng]%elem_of_glob_png.
  destruct (sweep_keeps_failing w _ st st' log a ea data_a Huniq Hea Hproc Hread_a
              Hin_a Hfail Hsweep) as (Hea' & _ & Hin').
  assert (Hglob' : a ∈ glob_png (queue_dir st')) by by apply elem_of_glob_png.
  split.
  { rewrite reads_app. apply elem_of_app. left.
    by apply (sweep_attempts w (glob_png (queue_dir st)) st st' log a ea). }
  split.
  { by apply (sweep_processes w (glob_png (queue_dir st)) st st' log b eb data_b b64
           description source). }
  split; [done |]. split; [done |].
  split; [unfold processed; by rewrite Hea' |].
  intros w2. destruct (iteration_run w2 st') as (st'' & log2 & Hsweep2 & ->).
  exists st'', (log2 ++ [EvSleep 10]). split; [done |].
  rewrite reads_app. apply elem_of_app. left.
  apply (sweep_attempts w2 (glob_png (queue_dir st')) st' st'' log2 a ea);
    [done | | done | done | done].
  intros q [Hq Hqpng]%elem_of_glob_png Hstem. apply Huniq; [| done].
  apply elem_of_glob_png. split; [| done]. by eapply sweep_queue_shrinks.
Qed.

Lemma sweep_failure_isolation_witness :
  ∃ st' log,
    vision_worker_iteration demo_world queued_state = (Ok tt, st', log) ∧
    processed st' "f.docx_img_1" = true ∧
    in_queue st' "f.docx_img_0.png".
Proof.
  destruct (sweep_failure_isolation demo_world queued_state
              "f.docx_img_0.png" "f.docx_img_1.png"
              (Entry IMAGE_PLACEHOLDER (image_metadata "f.docx"))
              (Entry IMAGE_PLACEHOLDER (image_metadata "f.docx"))
              [Byte.x01] [Byte.x02] "b64" "a gear" (MStr "f.docx"))
    as (st' & log & Hrun & _ & Hb & Ha & _).
  - vm_compute. by left.
  - vm_compute. right. by left.
  - intros q Hq Hstem. vm_compute in Hq.
    apply elem_of_cons in Hq as [->|Hq]; [done |].
    apply list_elem_of_singleton in Hq as ->. vm_compute in Hstem. discriminate Hstem.
  - vm_compute. reflexivity.
  - reflexivity.
  - vm_compute. reflexivity.
  - right. exists "b64". split; reflexivity.
  - vm_compute. reflexivity.
  - reflexivity.
  - vm_compute. reflexivity.
  - reflexivity.
  - reflexivity.
  - reflexivity.
  - exists st', log. done.
Defined.

(** ** The life of an image entry (C4) *)

Lemma queue_images_adds w file_name rels : ∀ img_index st r st' log ids docs metas,
  queue_images w file_name rels img_index st = (r, st', log) →
  EvAdd ids docs metas ∈ log →
  (∃ j, ids = [image_id file_name j]) ∧
  docs = [IMAGE_PLACEHOLDER] ∧ metas = [image_metadata file_name].
Proof.
  induction rels as [|[target_ref blob] rels IH];
    intros img_index st r st' log ids docs metas.
  - intros [= <- <- <-] H. by apply elem_of_nil in H.
  - cbn [queue_images]. destruct (py_in "image" target_ref); [| apply IH].
    unfold open_write, collection_add. simpl_M.
    destruct (index_accepts w _); simpl_M.
    + destruct (queue_images w file_name rels (S img_index) _) as [[r2 st2] l2] eqn:Hrest.
      intros [= <- <- <-] Hin.
      apply elem_of_cons in Hin as [?|Hin]; [done |].
      apply elem_of_cons in Hin as [[= -> -> ->]|Hin]; [eauto |].
      by eapply IH.
    + intros [= <- <- <-] Hin.
      apply elem_of_cons in Hin as [?|Hin]; [done |].
      apply list_elem_of_singleton in Hin as [= -> -> ->]. eauto.
Qed.

Lemma process_docx_adds w path st r st' log ids docs metas :
  process_docx w path st = (r, st', log) →
  EvAdd ids docs metas ∈ log →
  Forall (fun m => m = text_metadata (basename path)) metas ∨
  ((∃ j, ids = [image_id (basename path) j]) ∧
   docs = [IMAGE_PLACEHOLDER] ∧ metas = [image_metadata (basename path)]).
Proof.
  unfold process_docx, DocxDocument. simpl_M.
  destruct (upload_dir st !! path) as [data|]; simpl_M.
  2:{ intros [= <- <- <-] H. by apply elem_of_nil in H. }
  destruct (parse_docx w data) as [doc|]; simpl_M.
  2:{ intros [= <- <- <-] H. by apply elem_of_nil in H. }
  destruct (store_ids_where_source (index st) (basename path)).
  2:{ intros [= <- <- <-] H. by apply elem_of_nil in H. }
  unfold collection_add. simpl_M.
  destruct (index_accepts w _); simpl_M.
  - destruct (queue_images w _ _ _ _) as [[r2 st2] l2] eqn:Himgs.
    intros [= <- <- <-] Hin.
    apply elem_of_cons in Hin as [[= -> -> ->]|Hin].
    + left. apply Forall_replicate. done.
    + right. by eapply queue_images_adds.
  - intros [= <- <- <-] Hin.
    apply list_elem_of_singleton in Hin as [= -> -> ->].
    left. apply Forall_replicate. done.
Qed.

Lemma store_add_other ids docs metas : ∀ idx id,
  id ∉ ids → store_add ids docs metas idx !! id = idx !! id.
Proof.
  unfold store_add. revert docs metas.
  induction ids as [|i ids IH]; intros docs metas idx id Hid; [done |].
  destruct docs as [|d docs]; [done |]. destruct metas as [|m metas]; [done |].
  apply not_elem_of_cons in Hid as [Hne Hid]. cbn [zip zip_with foldl].
  rewrite IH by done. destruct (idx !! i); [done |]. by rewrite lookup_insert_ne.
Qed.

Lemma store_add_one idx id d m :
  store_add [id] [d] [m] idx =
  match idx !! id with
  | Some _ => idx
  | None => <[id := Entry d m]> idx
  end.
Proof. done. Qed.

(** The loop over the images never touches an entry that exists. *)
Lemma queue_images_keeps w file_name rels : ∀ img_index st r st' log id e,
  queue_images w file_name rels img_index st = (r, st', log) →
  index st !! id = Some e → index st' !! id = Some e.
Proof.
  induction rels as [|[target_ref blob] rels IH]; intros img_index st r st' log id e.
  - by intros [= <- <- <-].
  - cbn [queue_images]. destruct (py_in "image" target_ref); [| apply IH].
    unfold open_write, collection_add. simpl_M.
    destruct (index_accepts w _); simpl_M.
    + destruct (queue_images w file_name rels (S img_index) _) as [[r2 st2] l2] eqn:Hrest.
      intros [= <- <- <-] He. eapply IH; [exact Hrest |].
      cbn [index set_index set_queue_dir]. rewrite store_add_one.
      destruct (index st !! image_id file_name img_index) eqn:Hid; [done |].
      rewrite lookup_insert_ne; [done |]. intros <-. congruence.
    + by intros [= <- <- <-].
Qed.

(** When the loop ends normally, every image id it added that was free is
    bound to a placeholder entry. *)
Lemma queue_images_creates w file_name rels : ∀ img_index st st' log ids docs metas id,
  queue_images w file_name rels img_index st = (Ok tt, st', log) →
  EvAdd ids docs metas ∈ log → id ∈ ids →
  index st !! id = None →
  index st' !! id = Some (Entry IMAGE_PLACEHOLDER (image_metadata file_name)).
Proof.
  induction rels as [|[target_ref blob] rels IH];
    intros img_index st st' log ids docs metas id.
  - intros [= <- <-] H. by apply elem_of_nil in H.
  - cbn [queue_images]. destruct (py_in "image" target_ref); [| apply IH].
    unfold open_write, collection_add. simpl_M.
    destruct (index_accepts w _); simpl_M; [| done].
    destruct (queue_images w file_name rels (S img_index) _) as [[r2 st2] l2] eqn:Hrest.
    intros [= -> <- <-] Hin Hid Hfree.
    apply elem_of_cons in Hin as [?|Hin]; [done |].
    assert (Hnew : id = image_id file_name img_index →
                   index st2 !! id
                   = Some (Entry IMAGE_PLACEHOLDER (image_metadata file_name))).
    { intros ->. eapply queue_images_keeps; [exact Hrest |].
      cbn [index set_index set_queue_dir]. rewrite store_add_one, Hfree.
      apply lookup_insert_eq. }
    apply elem_of_cons in Hin as [[= -> -> ->]|Hin].
    + apply Hnew. by apply list_elem_of_singleton in Hid.
    + destruct (decide (id = image_id file_name img_index)) as [Heq|Hne]; [auto |].
      eapply IH; [exact Hrest | exact Hin | exact Hid |].
      cbn [index set_index set_queue_dir]. rewrite store_add_one.
      destruct (index st !! image_id file_name img_index); [done |].
      by rewrite lookup_insert_ne.
Qed.

Lemma image_id_not_chunk_id file_name j n :
  image_id file_name j ∉ chunk_ids file_name n.
Proof.
  unfold chunk_ids, image_id. intros (i & Heq & _)%list_elem_of_fmap.
  apply (inj (String.app file_name)) in Heq. discriminate Heq.
Qed.

(** After an ingestion that ended normally, every image id it added that
    was free before is bound to a placeholder entry. *)
Lemma process_docx_creates w path st st' log ids docs metas id m :
  process_docx w path st = (Ok tt, st', log) →
  EvAdd ids docs metas ∈ log →
  m ∈ metas → m !! "type" = Some (MStr "image") →
  id ∈ ids →
  index st !! id = None →
  index st' !! id = Some (Entry IMAGE_PLACEHOLDER (image_metadata (basename path))).
Proof.
  intros Hrun Hadd Hm Htype Hid Hfree.
  destruct (process_docx_adds _ _ _ _ _ _ _ _ _ Hrun Hadd)
    as [Htext|([j ->] & -> & ->)].
  { rewrite Forall_forall in Htext. rewrite (Htext m Hm) in Htype. done. }
  apply list_elem_of_singleton in Hid as ->.
  revert Hrun Hadd. unfold process_docx, DocxDocument. simpl_M.
  destruct (upload_dir st !! path) as [data|]; simpl_M; [| done].
  destruct (parse_docx w data) as [doc|]; simpl_M; [| done].
  destruct (store_ids_where_source (index st) (basename path)).
  2:{ intros [= <- <-] H. by apply elem_of_nil in H. }
  unfold collection_add. simpl_M.
  destruct (index_accepts w _); simpl_M; [| done].
  destruct (queue_images w _ _ _ _) as [[r2 st2] l2] eqn:Himgs.
  intros [= -> <- <-] Hin.
  apply elem_of_cons in Hin as [[= Hids _ _]|Hin].
  { exfalso. apply (image_id_not_chunk_id (basename path) j
                      (length (chunk_text (extract_text doc)))).
    rewrite <- Hids. by left. }
  eapply queue_images_creates; [exact Himgs | exact Hin | by left |].
  cbn [index set_index]. rewrite store_add_other; [done |].
  apply image_id_not_chunk_id.
Qed.

(** A processed entry is out of the sweep's reach. *)
Lemma sweep_processed_terminal w images st st' log id e :
  index st !! id = Some e →
  get_truthy (metadata e !! "processed") = true →
  sweep w images st = (Ok tt, st', log) →
  index st' !! id = Some e ∧ ¬ id ∈ updated_ids log ∧
  ∀ p, path_stem p = id → ¬ p ∈ submitted log ∧ ¬ p ∈ reads log.
Proof.
  intros He Hproc Hsweep.
  refine (sweep_invariant w
            (fun s acc => index s !! id = Some e ∧ ¬ id ∈ updated_ids acc ∧
                          ∀ p, path_stem p = id → ¬ p ∈ submitted acc ∧ ¬ p ∈ reads acc)
            images _ st [] st' log _ Hsweep).
  - intros p s acc r s1 l _ (Hs & Hupd & Hvis) Hrun.
    apply handle_image_step in Hrun
      as (_ & _ & _ & _ & _ & Hother & Hidle & _ & _ & _ & Hreads & Hsubm & Hupds & _).
    rewrite updated_ids_app, body_log_updated_ids.
    setoid_rewrite submitted_app. setoid_rewrite reads_app.
    setoid_rewrite body_log_submitted. setoid_rewrite body_log_reads.
    destruct (decide (path_stem p = id)) as [Hp|Hp].
    + destruct Hidle as (Hidx & -> & -> & ->).
      { rewrite awaits_analysis_lookup, Hp, Hs, Hproc. done. }
      rewrite Hidx, !app_nil_r. done.
    + rewrite Hother by done. split; [done |]. split.
      * rewrite elem_of_app. intros [?|Hin]; [done |]. by apply Hupds in Hin.
      * intros q Hq. rewrite !elem_of_app. split.
        -- destruct (Hvis q Hq) as [Hno _].
           intros [Hin|Hin]; [done |]. apply Hsubm in Hin. congruence.
        -- destruct (Hvis q Hq) as [_ Hno].
           intros [Hin|Hin]; [done |]. apply Hreads in Hin. congruence.
  - split; [done |]. split; [apply not_elem_of_nil |].
    intros q _. split; apply not_elem_of_nil.
Qed.

Lemma vision_worker_cons w ws st :
  ∃ st1 log1,
    sweep w (glob_png (queue_dir st)) st = (Ok tt, st1, log1) ∧
    vision_worker (w :: ws) st =
      match vision_worker ws st1 with
      | (r, st2, log2) => (r, st2, (log1 ++ [EvSleep 10]) ++ log2)
      end.
Proof.
  destruct (iteration_run w st) as (st1 & log1 & Hsweep & Hiter).
  exists st1, log1. split; [done |].
  cbn [vision_worker]. unfold mbind, M_bind. by rewrite Hiter.
Qed.

(** A processed entry stays as it is through any number of iterations of
    the worker loop, which never raises. *)
Lemma worker_processed_terminal ws : ∀ st id e,
  index st !! id = Some e →
  get_truthy (metadata e !! "processed") = true →
  ∃ st' log,
    vision_worker ws st = (Ok tt, st', log) ∧
    index st' !! id = Some e ∧ ¬ id ∈ updated_ids log ∧
    ∀ p, path_stem p = id → ¬ p ∈ submitted log ∧ ¬ p ∈ reads log.
Proof.
  induction ws as [|w ws IH]; intros st id e He Hproc.
  - exists st, []. split; [done |]. split; [done |]. split; [apply not_elem_of_nil |].
    intros p _. split; apply not_elem_of_nil.
  - destruct (vision_worker_cons w ws st) as (st1 & log1 & Hsweep & ->).
    destruct (sweep_processed_terminal w _ st st1 log1 id e He Hproc Hsweep)
      as (He1 & Hupd1 & Hvis1).
    destruct (IH st1 id e He1 Hproc) as (st2 & log2 & -> & He2 & Hupd2 & Hvis2).
    eexists _, _. split; [done |]. split; [done |].
    split.
    + rewrite !updated_ids_app. cbn. rewrite !app_nil_r, elem_of_app. tauto.
    + intros p Hp. rewrite !submitted_app, !reads_app. cbn.
      rewrite !app_nil_r, !elem_of_app.
      specialize (Hvis1 p Hp). specialize (Hvis2 p Hp). tauto.
Qed.

(** C4. (1) Every add of an image entry that [process_docx] issues carries
    the placeholder as its document and processed = False in its metadata,
    and when the ingestion ends normally an id that was free is bound to
    exactly that entry.
    (2) Handling an artifact whose entry is not processed, when the file
    decodes, the vision model answers and the collection accepts the write,
    issues exactly one update: the entry then has the model's answer as its
    document, processed = True, and the source it had; the artifact is gone.
    (3) An entry that is processed is left as it is by any number of
    iterations of the worker: none updates it, and no artifact of its id is
    opened or submitted to the vision model. *)
Theorem image_entry_lifecycle :
  (∀ w path st r st' log ids docs metas i m,
     process_docx w path st = (r, st', log) →
     EvAdd ids docs metas ∈ log →
     metas !! i = Some m →
     m !! "type" = Some (MStr "image") →
     docs !! i = Some IMAGE_PLACEHOLDER ∧ m !! "processed" = Some (MBool false) ∧
     ∀ id, r = Ok tt → ids !! i = Some id → index st !! id = None →
       index st' !! id
       = Some (Entry IMAGE_PLACEHOLDER
                 {[ "source" := MStr (basename path); "processed" := MBool false;
                    "type" := MStr "image" ]})) ∧
  (∀ w st p e data b64 description source,
     index st !! path_stem p = Some e →
     get_truthy (metadata e !! "processed") = false →
     metadata e !! "source" = Some source →
     fs_read p (queue_dir st) = Some data →
     decode_png_b64 w data = Some b64 →
     describe_reply w p b64 = Some description →
     index_accepts w [path_stem p] = true →
     ∃ st1 e1,
       handle_image w p st =
         (Ok tt, st1,
          [EvRead p; EvVision p b64;
           EvUpdate [path_stem p] [description]
             [{[ "processed" := MBool true; "type" := MStr "image";
                 "source" := source ]}];
           EvUnlink p]) ∧
       index st1 !! path_stem p = Some e1 ∧
       document e1 = description ∧
       metadata e1 !! "processed" = Some (MBool true) ∧
       metadata e1 !! "source" = Some source ∧
       ¬ in_queue st1 p) ∧
  (∀ ws st id e,
     index st !! id = Some e →
     get_truthy (metadata e !! "processed") = true →
     ∃ st' log,
       vision_worker ws st = (Ok tt, st', log) ∧
       index st' !! id = Some e ∧
       ¬ id ∈ updated_ids log ∧
       ∀ p, path_stem p = id → ¬ p ∈ submitted log ∧ ¬ p ∈ reads log).
Proof.
  split; [| split].
  - intros w path st r st' log ids docs metas i m Hrun Hadd Hm Htype.
    assert (Hshape : docs !! i = Some IMAGE_PLACEHOLDER ∧
                     m !! "processed" = Some (MBool false)).
    { destruct (process_docx_adds _ _ _ _ _ _ _ _ _ Hrun Hadd)
        as [Htext|(_ & -> & ->)].
      - rewrite Forall_lookup in Htext. rewrite (Htext i m Hm) in Htype. done.
      - destruct i as [|i]; [| done]. injection Hm as <-. done. }
    destruct Hshape as [Hdoc Hflag]. split; [done |]. split; [done |].
    intros id -> Hid Hfree.
    apply (process_docx_creates w path st st' log ids docs metas id m);
      try done; by eapply list_elem_of_lookup_2.
  - intros w st p e data b64 description source He Hproc Hsrc Hread Hdec Hvis Hacc.
    rewrite handle_image_run, He, Hproc, Hread, Hdec, Hvis, Hsrc, Hacc.
    eexists _, _. split; [reflexivity |].
    cbn [index queue_dir set_queue_dir set_index].
    rewrite lookup_alter_eq, He. cbn [fmap option_fmap option_map].
    split; [reflexivity |]. cbn [document metadata].
    split; [done |]. split; [apply processed_metadata_processed |].
    split; [apply processed_metadata_source |].
    unfold in_queue. cbn [queue_dir]. intros [_ Hne]%in_unlink. done.
  - intros ws st id e. apply worker_processed_terminal.
Qed.

Lemma image_entry_lifecycle_witness :
  ∃ st1 e1 log,
    handle_image demo_world "f.docx_img_1.png" queued_state = (Ok tt, st1, log) ∧
    index st1 !! "f.docx_img_1" = Some e1 ∧
    document e1 = "a gear".
Proof.
  destruct image_entry_lifecycle as (_ & Hstep & _).
  destruct (Hstep demo_world queued_state "f.docx_img_1.png"
              (Entry IMAGE_PLACEHOLDER (image_metadata "f.docx"))
              [Byte.x02] "b64" "a gear" (MStr "f.docx"))
    as (st1 & e1 & Hrun & He1 & Hdoc & _).
  - vm_compute. reflexivity.
  - reflexivity.
  - reflexivity.
  - vm_compute. reflexivity.
  - reflexivity.
  - reflexivity.
  - reflexivity.
  - exists st1, e1. eexists. split; [exact Hrun |]. split; [exact He1 | exact Hdoc].
Defined.

(** ** The order of the status endpoint and of the worker (C1) *)

Lemma find_current_image_first idx pending :
  filename <$> find_current_image idx pending = first_awaiting idx pending.
Proof.
  unfold first_awaiting. induction pending as [|p rest IH]; [done |].
  cbn [find_current_image]. rewrite filter_cons, awaits_analysis_lookup.
  rewrite store_get_metadatas_one.
  destruct (idx !! path_stem p) as [e|].
  - destruct (get_truthy (metadata e !! "processed")); cbn [negb].
    + rewrite decide_False by done. exact IH.
    + rewrite decide_True by done. done.
  - rewrite decide_False by done. exact IH.
Qed.

Lemma reported_current_first w st :
  reported_current w st
  = first_awaiting (index st) (py_sorted (glob_png (queue_dir st))).
Proof.
  unfold reported_current, queue_status, try_except. simpl_M. cbn.
  apply find_current_image_first.
Qed.

Lemma sweep_first_read w images : ∀ st,
  head (reads (sweep w images st).2) = first_awaiting (index st) images.
Proof.
  unfold first_awaiting. induction images as [|p rest IH]; intros st; [done |].
  rewrite sweep_cons, filter_cons.
  destruct (handle_image w p st) as [[r st1] l1] eqn:Hp.
  specialize (IH st1). destruct (sweep w rest st1) as [[r2 st2] l2].
  cbn [snd] in *. rewrite reads_app, body_log_reads.
  destruct (awaits_analysis (index st) p) eqn:Hawait.
  - rewrite decide_True by done.
    rewrite awaits_analysis_lookup in Hawait. rewrite handle_image_run in Hp.
    destruct (index st !! path_stem p) as [e|]; [| done].
    destruct (get_truthy (metadata e !! "processed")); [done |].
    repeat match type of Hp with
           | context [match ?x with _ => _ end] => destruct x
           end; injection Hp as <- <- <-; done.
  - rewrite decide_False by done.
    apply handle_image_step in Hp as (_ & _ & _ & _ & _ & _ & Hidle & _).
    destruct (Hidle Hawait) as (Hidx & -> & _). rewrite <- Hidx. exact IH.
Qed.

Lemma worker_next_first w st :
  worker_next w st = first_awaiting (index st) (glob_png (queue_dir st)).
Proof.
  unfold worker_next. destruct (iteration_run w st) as (st' & log & Hsweep & ->).
  cbn [snd]. rewrite <- (sweep_first_read w _ st), Hsweep. cbn [snd].
  rewrite reads_app. cbn. by rewrite app_nil_r.
Qed.

(** When the directory lists its files in sorted order, the status endpoint
    reports the artifact the worker opens first. *)
Lemma current_image_agrees_when_sorted w st :
  py_sorted (glob_png (queue_dir st)) = glob_png (queue_dir st) →
  reported_current w st = worker_next w st.
Proof. intros Hsorted. by rewrite reported_current_first, worker_next_first, Hsorted. Qed.

(** C1, on a directory that lists b.docx_img_0.png before a.docx_img_0.png,
    both awaiting analysis: [/queue-status] sorts the listing and reports the
    a file as current, the worker takes the listing as it comes and opens
    the b file first. *)
Theorem current_image_differs_from_worker_order :
  glob_png (queue_dir unsorted_state) = ["b.docx_img_0.png"; "a.docx_img_0.png"] ∧
  reported_current demo_world unsorted_state = Some "a.docx_img_0.png" ∧
  worker_next demo_world unsorted_state = Some "b.docx_img_0.png" ∧
  reported_current demo_world unsorted_state ≠ worker_next demo_world unsorted_state.
Proof.
  assert (Hstatus : reported_current demo_world unsorted_state = Some "a.docx_img_0.png")
    by (vm_compute; reflexivity).
  assert (Hworker : worker_next demo_world unsorted_state = Some "b.docx_img_0.png")
    by (vm_compute; reflexivity).
  split; [vm_compute; reflexivity |]. split; [exact Hstatus |]. split; [exact Hworker |].
  rewrite Hstatus, Hworker. discriminate.
Qed.

(** ** Upstream failures while answering (C8) *)

Lemma ask_question_streams w data st q :
  data !! "question" = Some q → q ≠ "" →
  ask_question w data st = (Ok (Response (EventStream (generate q)) 200), st, []).
Proof.
  intros Hq Hne. unfold ask_question. rewrite Hq. cbn [default].
  destruct q as [|c q]; [done |]. done.
Qed.

(** The generator calls each upstream service at most once. *)
Lemma generate_calls_once w q :
  (generate q w).2 = [EvQuery q 6] ∨
  ∃ prompt, (generate q w).2 = [EvQuery q 6; EvCompletion prompt].
Proof.
  unfold generate. destruct (query_reply w q) as [docs|]; [| by left].
  right. eexists. destruct (completion_reply w _) as [[chunks []]|]; reflexivity.
Qed.

(** C8, for the question hi when the similarity query is unreachable:
    [ask_question] leaves its [try] with the 200 streaming response, not
    with the 500 reply of its [except] clause; the query is made, once, when
    the response is iterated, and its failure is raised there, after the
    handler has returned, with no frame sent. *)
Theorem ask_upstream_failure_escapes_handler :
  ask_question offline_world {[ "question" := "hi" ]} empty_state
    = (Ok (Response (EventStream (generate "hi")) 200), empty_state, []) ∧
  iterate_body offline_world (Response (EventStream (generate "hi")) 200)
    = ([], Raise QueryError, [EvQuery "hi" 6]).
Proof. split; reflexivity. Qed.

(** ** The scenarios of the specification, run on the model *)

(** Ingesting f.docx (two non-blank paragraphs, two images) queues both
    images; the status endpoint counts them and names the first. *)
Example scenario_ingest_then_status :
  (queue_status demo_world queued_state).1.1
  = Ok (Response
          (JsonQueueStatus
             (QueueReport 2 2 0 true
                (Some (CurrentImage "f.docx_img_0.png" "f.docx"))))
          200).
Proof. vm_compute. reflexivity. Qed.

(** One iteration of the worker, with the vision model failing on the first
    image: the second is processed and unlinked, the first stays queued. *)
Example scenario_sweep_with_one_failure :
  let st' := (vision_worker_iteration demo_world queued_state).1.2 in
  (queue_dir st').*1 = ["f.docx_img_0.png"] ∧
  document <$> index st' !! "f.docx_img_1" = Some "a gear" ∧
  processed st' "f.docx_img_1" = true ∧
  processed st' "f.docx_img_0" = false.
Proof. vm_compute. repeat split; reflexivity. Qed.

(** Uploading the same document again changes neither the collection nor
    the queue. *)
Example scenario_reupload :
  let '(r, st', _) :=
    upload_file demo_world {[ "file" := FileStorage "f.docx" [] ]} queued_state in
  r = Ok (Response (JsonMessage "File f.docx uploaded and processed successfully!") 200) ∧
  index st' = index queued_state ∧
  queue_dir st' = queue_dir queued_state.
Proof. vm_compute. repeat split; reflexivity. Qed.

(** An empty question is answered 400. *)
Example scenario_empty_question :
  ask_question demo_world {[ "question" := "" ]} empty_state
  = (Ok (Response (JsonError "No question provided") 400), empty_state, []).
Proof. reflexivity. Qed.

(** * Further properties *)

(** ** From an image id to its artifact and back *)

Lemma rev_app_app s t acc :
  String.rev_app (s +:+ t) acc = String.rev_app t (String.rev_app s acc).
Proof.
  revert acc. induction s as [|c s IH]; intros acc; [done |].
  rewrite app_String. cbn [String.rev_app]. apply IH.
Qed.

Lemma endswith_png x : py_endswith ".png" (x +:+ ".png") = true.
Proof.
  unfold py_endswith, String.rev. rewrite rev_app_app.
  cbn [String.rev_app]. by destruct (String.rev_app x "").
Qed.

Lemma image_id_truthy file_name k : str_truthy (image_id file_name k) = true.
Proof. unfold image_id. by destruct file_name. Qed.

Lemma path_stem_png x : str_truthy x = true → path_stem (x +:+ ".png") = x.
Proof.
  intros Hx. unfold path_stem.
  assert (Hsplit : rsplit_last "." (x +:+ ".png") = Some (x, "png"))
    by by apply rsplit_last_dot_Some.
  by rewrite Hsplit, Hx.
Qed.

Lemma string_of_uint_digits d : digits_only (NilEmpty.string_of_uint d).
Proof. unfold digits_only. induction d; cbn; constructor; done. Qed.

Lemma py_str_nat_digits k : digits_only (py_str_nat k).
Proof.
  unfold py_str_nat, NilZero.string_of_uint.
  destruct (Nat.to_uint k) eqn:Hk; try (rewrite <- Hk; apply string_of_uint_digits).
  repeat constructor.
Qed.

Lemma rsplit_last_img_digits d : digits_only d → rsplit_last "_img_" d = None.
Proof.
  unfold digits_only. induction d as [|c d IH]; [done |].
  cbn [list_ascii_of_string rsplit_last String.prefix].
  intros [Hc Hd]%Forall_cons. rewrite (IH Hd).
  destruct (ascii_dec "_" c) as [<-|]; [discriminate Hc | done].
Qed.

Lemma prefix_img_digits d : digits_only d → String.prefix "img_" d = false.
Proof.
  unfold digits_only. destruct d as [|c d]; [done |].
  cbn [list_ascii_of_string String.prefix]. intros [Hc _]%Forall_cons.
  destruct (ascii_dec "i" c) as [<-|]; [discriminate Hc | done].
Qed.

Lemma py_slice_drop_prefix a b :
  py_slice (a +:+ b) (String.length a) (String.length (a +:+ b)) = b.
Proof.
  apply chars_inj. rewrite slice_chars, !strlen_chars, chars_app, length_app.
  rewrite drop_app_length, take_ge; [done | lia].
Qed.

Lemma rsplit_last_cons sep c s :
  rsplit_last sep (String c s) =
  match rsplit_last sep s with
  | Some (a, b) => Some (String c a, b)
  | None =>
      if String.prefix sep (String c s)
      then Some ("", py_slice (String c s) (String.length sep)
                       (String.length (String c s)))
      else None
  end.
Proof. done. Qed.

Lemma rsplit_last_img_only d :
  digits_only d → rsplit_last "_img_" ("_img_" +:+ d) = Some ("", d).
Proof.
  intros Hd.
  pose proof (rsplit_last_img_digits d Hd) as H0.
  pose proof (prefix_img_digits d Hd) as Hpre.
  assert (H1 : rsplit_last "_img_" (String "_" d) = None).
  { rewrite rsplit_last_cons, H0. cbn [String.prefix].
    destruct (ascii_dec "_" "_"); [| done]. by rewrite Hpre. }
  assert (H2 : rsplit_last "_img_" (String "g" (String "_" d)) = None).
  { by rewrite rsplit_last_cons, H1. }
  assert (H3 : rsplit_last "_img_" (String "m" (String "g" (String "_" d))) = None).
  { by rewrite rsplit_last_cons, H2. }
  assert (H4 : rsplit_last "_img_"
                 (String "i" (String "m" (String "g" (String "_" d)))) = None).
  { by rewrite rsplit_last_cons, H3. }
  change ("_img_" +:+ d)
    with (String "_" (String "i" (String "m" (String "g" (String "_" d))))).
  rewrite rsplit_last_cons, H4.
  assert (Hp : String.prefix "_img_"
                 (String "_" (String "i" (String "m" (String "g" (String "_" d)))))
               = true) by by destruct d.
  rewrite Hp. f_equal. f_equal.
  apply (py_slice_drop_prefix "_img_" d).
Qed.

Lemma rsplit_last_prepend sep f t a b :
  rsplit_last sep t = Some (a, b) → rsplit_last sep (f +:+ t) = Some (f +:+ a, b).
Proof.
  intros Ht. induction f as [|c f IH]; [done |].
  rewrite !app_String. cbn [rsplit_last]. by rewrite IH.
Qed.

Lemma rsplit_last_image_id file_name k :
  rsplit_last "_img_" (image_id file_name k) = Some (file_name, py_str_nat k).
Proof.
  unfold image_id.
  rewrite (rsplit_last_prepend _ file_name _ "" (py_str_nat k)).
  - f_equal. f_equal. induction file_name as [|c f IH]; [done |].
    rewrite app_String. by rewrite IH.
  - apply rsplit_last_img_only, py_str_nat_digits.
Qed.

Lemma py_in_image_id file_name k : py_in "_img_" (image_id file_name k) = true.
Proof.
  unfold image_id. induction file_name as [|c f IH].
  - change ("" +:+ "_img_" +:+ py_str_nat k) with ("_img_" +:+ py_str_nat k).
    change ("_img_" +:+ py_str_nat k)
      with (String "_" (String "i" (String "m" (String "g" (String "_" (py_str_nat k)))))).
    cbn [py_in]. apply orb_true_iff. left. by destruct (py_str_nat k).
  - rewrite app_String. cbn [py_in]. rewrite IH. apply orb_true_r.
Qed.

(** X1. The artifact [process_docx] writes for image [img_index] of
    [file_name] matches the worker's glob, its stem is the id of the entry
    added with it, and when that entry awaits analysis [/queue-status]
    reports the artifact with [source_doc] = [file_name], whatever dots or
    _img_ the file name itself contains. *)
Theorem artifact_name_round_trip (file_name : string) (img_index : nat)
    (idx : gmap string entry) (rest : list string) (e : entry) :
  idx !! image_id file_name img_index = Some e →
  get_truthy (metadata e !! "processed") = false →
  py_endswith ".png" (image_id file_name img_index +:+ ".png") = true ∧
  path_stem (image_id file_name img_index +:+ ".png") = image_id file_name img_index ∧
  find_current_image idx ((image_id file_name img_index +:+ ".png") :: rest)
  = Some (CurrentImage (image_id file_name img_index +:+ ".png") file_name).
Proof.
  intros He Hproc.
  pose proof (path_stem_png _ (image_id_truthy file_name img_index)) as Hstem.
  split; [apply endswith_png |]. split; [exact Hstem |].
  cbn [find_current_image]. rewrite Hstem, store_get_metadatas_one, He, Hproc.
  rewrite py_in_image_id. unfold py_rsplit1. rewrite rsplit_last_image_id. done.
Qed.

Lemma artifact_name_round_trip_witness :
  find_current_image
    {[ "a_img_b.docx_img_7" := Entry IMAGE_PLACEHOLDER (image_metadata "a_img_b.docx") ]}
    [image_id "a_img_b.docx" 7 +:+ ".png"]
  = Some (CurrentImage (image_id "a_img_b.docx" 7 +:+ ".png") "a_img_b.docx").
Proof.
  apply (artifact_name_round_trip "a_img_b.docx" 7
           {[ "a_img_b.docx_img_7" := Entry IMAGE_PLACEHOLDER (image_metadata "a_img_b.docx") ]}
           [] (Entry IMAGE_PLACEHOLDER (image_metadata "a_img_b.docx"))).
  - reflexivity.
  - reflexivity.
Defined.

(** ** What a successful ingestion leaves behind *)

Lemma image_calls_shift file_name first (l : list (string * list Byte.byte)) :
  imap (image_calls file_name first ∘ S) l = imap (image_calls file_name (S first)) l.
Proof.
  apply imap_ext. intros k rel _. unfold image_calls. cbn [compose].
  by replace (first + S k) with (S first + k) by lia.
Qed.

(** The calls of the loop over the images, when it ends normally. *)
Lemma queue_images_log w file_name rels : ∀ first st st' log,
  queue_images w file_name rels first st = (Ok tt, st', log) →
  log = concat (imap (image_calls file_name first) (image_rels rels)).
Proof.
  unfold image_rels.
  induction rels as [|[target_ref blob] rels IH]; intros first st st' log.
  - by intros [= <- <-].
  - cbn [queue_images]. rewrite filter_cons. cbn [fst].
    destruct (py_in "image" target_ref) eqn:Himg.
    + rewrite decide_True by done.
      unfold open_write, collection_add. simpl_M.
      destruct (index_accepts w _); simpl_M; [| done].
      destruct (queue_images w file_name rels (S first) _) as [[r2 st2] l2] eqn:Hrest.
      intros [= -> <- <-]. apply IH in Hrest as ->.
      rewrite imap_cons, image_calls_shift. cbn [concat]. unfold image_calls at 2.
      cbn [snd app]. by rewrite Nat.add_0_r.
    + rewrite decide_False by done. apply IH.
Qed.


Lemma fs_write_names name data dir n :
  n ∈ (fs_write name data dir).*1 ↔ n = name ∨ n ∈ dir.*1.
Proof.
  induction dir as [|[n' d'] dir IH]; cbn [fs_write].
  - cbn. rewrite list_elem_of_singleton, elem_of_nil. tauto.
  - destruct (decide (n' = name)) as [->|Hne]; cbn [fmap list_fmap fst].
    + rewrite !elem_of_cons. tauto.
    + rewrite !elem_of_cons, IH. tauto.
Qed.

(** The loop over the images only adds files to the queue directory, leaves
    the uploads alone, and every file it writes is there at the end. *)
Lemma queue_images_queue w file_name rels : ∀ first st r st' log,
  queue_images w file_name rels first st = (r, st', log) →
  upload_dir st' = upload_dir st ∧
  (∀ n, in_queue st n → in_queue st' n) ∧
  (∀ n d, EvWrite n d ∈ log → in_queue st' n).
Proof.
  unfold in_queue.
  induction rels as [|[target_ref blob] rels IH]; intros first st r st' log.
  - intros [= <- <- <-]. split; [done |]. split; [done |].
    intros n d H. by apply elem_of_nil in H.
  - cbn [queue_images]. destruct (py_in "image" target_ref); [| apply IH].
    unfold open_write, collection_add. simpl_M.
    destruct (index_accepts w _); simpl_M.
    + destruct (queue_images w file_name rels (S first) _) as [[r2 st2] l2] eqn:Hrest.
      intros [= <- <- <-]. apply IH in Hrest as (Hup & Hkeep & Hnew).
      cbn [upload_dir queue_dir set_index set_queue_dir] in *.
      split; [done |]. split.
      * intros n Hn. apply Hkeep, fs_write_names. by right.
      * intros n d Hin. apply elem_of_cons in Hin as [[= -> ->]|Hin].
        { apply Hkeep, fs_write_names. by left. }
        apply elem_of_cons in Hin as [?|Hin]; [done |]. eauto.
    + intros [= <- <- <-]. cbn [upload_dir queue_dir set_queue_dir].
      split; [done |]. split.
      * intros n Hn. apply fs_write_names. by right.
      * intros n d Hin. apply elem_of_cons in Hin as [[= -> ->]|Hin].
        { apply fs_write_names. by left. }
        by apply list_elem_of_singleton in Hin.
Qed.

(** The run of [process_docx] on a new source, split at the bulk add. *)
Lemma process_docx_new_source_run w path st data doc r st' log :
  upload_dir st !! path = Some data →
  parse_docx w data = Some doc →
  known_source st (basename path) = false →
  process_docx w path st = (r, st', log) →
  let ids := chunk_ids (basename path) (length (chunk_text (extract_text doc))) in
  let chunks := chunk_text (extract_text doc) in
  let metas := replicate (length chunks) (text_metadata (basename path)) in
  (index_accepts w ids = false ∧ r = Raise IndexWriteError ∧ st' = st ∧
   log = [EvAdd ids chunks metas]) ∨
  (index_accepts w ids = true ∧
   ∃ log2,
     queue_images w (basename path) (rels doc) 0
       (set_index (store_add ids chunks metas (index st)) st) = (r, st', log2) ∧
     log = EvAdd ids chunks metas :: log2).
Proof.
  intros Hdata Hparse Hnew.
  rewrite (process_docx_new_source _ _ _ _ _ Hdata Hparse Hnew).
  unfold collection_add. simpl_M.
  destruct (index_accepts w _); simpl_M.
  - destruct (queue_images w _ _ _ _) as [[r2 st2] l2] eqn:Himgs.
    intros [= <- <- <-]. right. split; [done |]. by exists l2.
  - intros [= <- <- <-]. by left.
Qed.



Lemma elem_of_concat_lookup {A} (ls : list (list A)) k l x :
  ls !! k = Some l → x ∈ l → x ∈ concat ls.
Proof.
  intros Hk Hx. apply list_elem_of_In, in_concat. exists l.
  split; apply list_elem_of_In; [| done]. by eapply list_elem_of_lookup_2.
Qed.

(** X3. After an ingestion of a new source that ended normally, the k-th
    image of the document, if its id was free, has both halves of a queue
    item: the artifact file_name_img_k.png is in the queue directory, where
    the worker's glob finds it, and the entry file_name_img_k is the
    placeholder entry, so that the artifact awaits analysis. *)
Theorem ingested_image_is_queued (w : world) (st st' : state) (path : string)
    (data : list Byte.byte) (doc : docx) (log : list event) (k : nat)
    (rel : string * list Byte.byte) :
  upload_dir st !! path = Some data →
  parse_docx w data = Some doc →
  known_source st (basename path) = false →
  process_docx w path st = (Ok tt, st', log) →
  image_rels (rels doc) !! k = Some rel →
  index st !! image_id (basename path) k = None →
  image_id (basename path) k +:+ ".png" ∈ glob_png (queue_dir st') ∧
  index st' !! image_id (basename path) k
  = Some (Entry IMAGE_PLACEHOLDER (image_metadata (basename path))) ∧
  awaits_analysis (index st') (image_id (basename path) k +:+ ".png") = true.
Proof.
  intros Hdata Hparse Hnew Hrun Hrel Hfree.
  destruct (process_docx_new_source_run _ _ _ _ _ _ _ _ Hdata Hparse Hnew Hrun)
    as [(_ & [=] & _)|(_ & log2 & Himgs & Hlog)].
  pose proof (queue_images_log _ _ _ _ _ _ _ Himgs) as Hlog2.
  assert (Hcalls : imap (image_calls (basename path) 0) (image_rels (rels doc)) !! k
                   = Some (image_calls (basename path) 0 k rel))
    by by rewrite list_lookup_imap, Hrel.
  assert (Hwrite : EvWrite (image_id (basename path) k +:+ ".png") rel.2 ∈ log2).
  { rewrite Hlog2. eapply elem_of_concat_lookup; [exact Hcalls |]. by left. }
  assert (Hadd : EvAdd [image_id (basename path) k] [IMAGE_PLACEHOLDER]
                   [image_metadata (basename path)] ∈ log).
  { rewrite Hlog, Hlog2. right.
    eapply elem_of_concat_lookup; [exact Hcalls |]. right. by left. }
  assert (Hentry : index st' !! image_id (basename path) k
                   = Some (Entry IMAGE_PLACEHOLDER (image_metadata (basename path)))).
  { apply (process_docx_creates w path st st' log _ _ _ _
             (image_metadata (basename path)) Hrun Hadd);
      [by left | done | by left | done]. }
  split; [| split; [exact Hentry |]].
  - apply elem_of_glob_png. split; [| apply endswith_png].
    by apply (queue_images_queue _ _ _ _ _ _ _ _ Himgs) in Hwrite.
  - rewrite awaits_analysis_lookup, path_stem_png by apply image_id_truthy.
    by rewrite Hentry.
Qed.

Lemma ingested_image_is_queued_witness :
  awaits_analysis (index queued_state) (image_id "f.docx" 1 +:+ ".png") = true.
Proof.
  apply (ingested_image_is_queued demo_world uploaded_state queued_state demo_path []
           demo_docx (process_docx demo_world demo_path uploaded_state).2 1
           ("media/image2.png", [Byte.x02])).
  - reflexivity.
  - reflexivity.
  - reflexivity.
  - vm_compute. reflexivity.
  - reflexivity.
  - reflexivity.
Defined.

(** ** A first ingestion makes the source known *)

Lemma store_add_keeps ids docs metas : ∀ idx id e,
  idx !! id = Some e → store_add ids docs metas idx !! id = Some e.
Proof.
  unfold store_add. revert docs metas.
  induction ids as [|i ids IH]; intros docs metas idx id e He; [done |].
  destruct docs as [|d docs]; [done |]. destruct metas as [|m metas]; [done |].
  cbn [zip zip_with foldl]. apply IH.
  destruct (idx !! i) eqn:Hi; [done |].
  rewrite lookup_insert_ne; [done |]. intros <-. congruence.
Qed.

Lemma store_add_head i ids d docs m metas idx :
  idx !! i = None →
  store_add (i :: ids) (d :: docs) (m :: metas) idx !! i = Some (Entry d m).
Proof.
  intros Hi. unfold store_add. cbn [zip zip_with foldl]. rewrite Hi.
  apply (store_add_keeps ids docs metas). apply lookup_insert_eq.
Qed.

Lemma process_docx_upload_dir w path st r st' log :
  process_docx w path st = (r, st', log) → upload_dir st' = upload_dir st.
Proof.
  unfold process_docx, DocxDocument. simpl_M.
  destruct (upload_dir st !! path) as [data|]; simpl_M; [| by intros [= <- <- <-]].
  destruct (parse_docx w data) as [doc|]; simpl_M; [| by intros [= <- <- <-]].
  destruct (store_ids_where_source (index st) (basename path));
    [| by intros [= <- <- <-]].
  unfold collection_add. simpl_M.
  destruct (index_accepts w _); simpl_M; [| by intros [= <- <- <-]].
  destruct (queue_images w _ _ _ _) as [[r2 st2] l2] eqn:Himgs.
  intros [= <- <- <-]. by apply queue_images_queue in Himgs as [-> _].
Qed.

Lemma process_docx_known w path st data doc :
  upload_dir st !! path = Some data →
  parse_docx w data = Some doc →
  known_source st (basename path) = true →
  process_docx w path st = (Ok tt, st, []).
Proof.
  intros Hdata Hparse Hknown. unfold process_docx, DocxDocument, known_source in *.
  simpl_M. rewrite Hdata. simpl_M. rewrite Hparse. simpl_M.
  by destruct (store_ids_where_source (index st) (basename path)).
Qed.

(** X4. When ingesting a new source ends normally, its text is not empty and
    the id of its first chunk was free, the source is known afterwards: the
    collection holds the first chunk under file_name_t_0 with the source in
    its metadata, and ingesting the same path again, in any world in which
    the file still parses, returns at once and changes nothing. *)
Theorem first_ingestion_makes_source_known (w : world) (st st' : state)
    (path : string) (data : list Byte.byte) (doc : docx) (log : list event) :
  upload_dir st !! path = Some data →
  parse_docx w data = Some doc →
  known_source st (basename path) = false →
  process_docx w path st = (Ok tt, st', log) →
  0 < String.length (extract_text doc) →
  index st !! (basename path +:+ "_t_" +:+ py_str_nat 0) = None →
  index st' !! (basename path +:+ "_t_" +:+ py_str_nat 0)
  = Some (Entry (py_slice (extract_text doc) 0 2000)
                {[ "source" := MStr (basename path); "type" := MStr "text" ]}) ∧
  known_source st' (basename path) = true ∧
  ∀ w2 doc2, parse_docx w2 data = Some doc2 →
    process_docx w2 path st' = (Ok tt, st', []).
Proof.
  intros Hdata Hparse Hnew Hrun Hlen Hfree.
  pose proof (process_docx_upload_dir _ _ _ _ _ _ Hrun) as Hup.
  destruct (process_docx_new_source_run _ _ _ _ _ _ _ _ Hdata Hparse Hnew Hrun)
    as [(_ & [=] & _)|(_ & log2 & Himgs & _)].
  assert (Hfirst : chunk_text (extract_text doc) !! 0
                   = Some (py_slice (extract_text doc) 0 2000)).
  { apply chunk_text_lookup. split; [| done].
    apply Nat.div_str_pos. lia. }
  destruct (chunk_text (extract_text doc)) as [|c chunks] eqn:Hchunks; [done |].
  injection Hfirst as ->.
  assert (Hentry : index st' !! (basename path +:+ "_t_" +:+ py_str_nat 0)
                   = Some (Entry (py_slice (extract_text doc) 0 2000)
                                 (text_metadata (basename path)))).
  { eapply queue_images_keeps; [exact Himgs |].
    cbn [index set_index length replicate]. unfold chunk_ids.
    cbn [seq fmap list_fmap]. by apply store_add_head. }
  split; [exact Hentry |].
  assert (Hknown : known_source st' (basename path) = true).
  { apply known_source_spec. eexists _, _. split; [exact Hentry | done]. }
  split; [exact Hknown |].
  intros w2 doc2 Hparse2. apply (process_docx_known w2 path st' data doc2);
    [by rewrite Hup | done | done].
Qed.

Lemma first_ingestion_makes_source_known_witness :
  known_source queued_state "f.docx" = true.
Proof.
  apply (first_ingestion_makes_source_known demo_world uploaded_state queued_state
           demo_path [] demo_docx (process_docx demo_world demo_path uploaded_state).2).
  - reflexivity.
  - reflexivity.
  - reflexivity.
  - vm_compute. reflexivity.
  - vm_compute. lia.
  - reflexivity.
Defined.

(** ** The upload route and the start-up scan *)

(** X5. An accepted upload is saved under its secured name before it is
    processed, and the handler never lets an exception of [process_docx]
    out: it answers 200 with the state [process_docx] left when that call
    returns, and 500 with the text of the exception when it raises. In both
    cases the saved file is still in the upload folder afterwards. *)
Theorem upload_outcome (w : world) (files : gmap string file_storage)
    (file : file_storage) (st : state) :
  files !! "file" = Some file →
  allowed_file (fs_filename file) = true →
  let filename := secure_filename w (fs_filename file) in
  let filepath := path_join UPLOAD_FOLDER filename in
  let saved := set_upload_dir (<[filepath := fs_content file]> (upload_dir st)) st in
  ∃ r st' log,
    upload_file w files st = (Ok r, st', EvSave filepath (fs_content file) :: log) ∧
    upload_dir st' !! filepath = Some (fs_content file) ∧
    ((process_docx w filepath saved = (Ok tt, st', log) ∧
      r = Response
            (JsonMessage ("File " +:+ filename +:+ " uploaded and processed successfully!"))
            200) ∨
     (∃ e, process_docx w filepath saved = (Raise e, st', log) ∧
           r = Response (JsonError ("Error processing file: " +:+ str_exn w e)) 500)).
Proof.
  intros Hfile Hallowed filename filepath saved.
  unfold upload_file. rewrite Hfile, Hallowed.
  destruct (decide (fs_filename file = "")) as [Hempty|Hne].
  { rewrite Hempty in Hallowed. done. }
  destruct (fs_filename file) as [|c name] eqn:Hname; [done |].
  cbn [str_truthy andb]. unfold file_save. simpl_M. fold filename filepath saved.
  destruct (process_docx w filepath saved) as [[[[]|e] st2] l2] eqn:Hrun;
    unfold try_except, mbind, M_bind; rewrite Hrun; cbn.
  - eexists _, st2, l2. rewrite app_nil_r. split; [done |]. split; [| by left].
    rewrite (process_docx_upload_dir _ _ _ _ _ _ Hrun). apply lookup_insert_eq.
  - eexists _, st2, l2. rewrite app_nil_r. split; [done |]. split; [| right; eauto].
    rewrite (process_docx_upload_dir _ _ _ _ _ _ Hrun). apply lookup_insert_eq.
Qed.

Lemma upload_outcome_witness :
  ∃ r st' log,
    upload_file unparseable_world {[ "file" := FileStorage "bad.docx" [Byte.x00] ]}
      empty_state = (Ok r, st', log) ∧
    upload_dir st' !! "./uploaded_docs/bad.docx" = Some [Byte.x00].
Proof.
  assert (Hfile : ({[ "file" := FileStorage "bad.docx" [Byte.x00] ]}
                     : gmap string file_storage) !! "file"
                  = Some (FileStorage "bad.docx" [Byte.x00])) by reflexivity.
  destruct (upload_outcome unparseable_world _ _ empty_state Hfile)
    as (r & st' & log & Hrun & Hsaved & _).
  - reflexivity.
  - exists r, st'. eexists. split; [exact Hrun | exact Hsaved].
Defined.

Lemma create_vectorstore_run w docs_dir st :
  create_vectorstore w docs_dir st
  = for_each (fun file => process_docx w file) (rglob_docx docs_dir (upload_dir st)) st.
Proof. unfold create_vectorstore. by simpl_M. Qed.

Lemma for_each_cons {X} (body : X → M unit) x rest st :
  for_each body (x :: rest) st =
  match body x st with
  | (Ok _, st1, l1) =>
      match for_each body rest st1 with
      | (r, st2, l2) => (r, st2, l1 ++ l2)
      end
  | (Raise e, st1, l1) => (Raise e, st1, l1)
  end.
Proof. done. Qed.

(** X6. Starting up over an upload folder in which every .docx file parses
    and is already a known source ingests nothing: [create_vectorstore]
    returns normally with the collection, the queue and the uploads
    unchanged and without a single call. *)
Theorem startup_scan_of_known_sources (w : world) (docs_dir : string) (st : state) :
  (∀ p, p ∈ rglob_docx docs_dir (upload_dir st) →
        ∃ data doc, upload_dir st !! p = Some data ∧ parse_docx w data = Some doc ∧
                    known_source st (basename p) = true) →
  create_vectorstore w docs_dir st = (Ok tt, st, []).
Proof.
  rewrite create_vectorstore_run.
  generalize (rglob_docx docs_dir (upload_dir st)). intros files Hall.
  induction files as [|p files IH]; [done |].
  rewrite for_each_cons.
  destruct (Hall p) as (data & doc & Hdata & Hparse & Hknown); [by left |].
  rewrite (process_docx_known w p st data doc Hdata Hparse Hknown).
  rewrite IH; [done |]. intros q Hq. apply Hall. by right.
Qed.

Lemma startup_scan_of_known_sources_witness :
  create_vectorstore demo_world "./uploaded_docs" queued_state = (Ok tt, queued_state, []).
Proof.
  apply startup_scan_of_known_sources.
  intros p Hp. vm_compute in Hp. apply list_elem_of_singleton in Hp as ->.
  exists [], demo_docx. repeat split; vm_compute; reflexivity.
Defined.

Lemma for_each_process_docx_raises w p files : ∀ st data,
  p ∈ files →
  upload_dir st !! p = Some data →
  parse_docx w data = None →
  ∃ e st' log, for_each (fun file => process_docx w file) files st = (Raise e, st', log).
Proof.
  induction files as [|q files IH]; intros st data Hin Hdata Hparse.
  - by apply elem_of_nil in Hin.
  - rewrite for_each_cons.
    destruct (process_docx w q st) as [[[[]|e] st1] l1] eqn:Hq; [| by eexists _, _, _].
    apply elem_of_cons in Hin as [->|Hin].
    + revert Hq. unfold process_docx, DocxDocument. simpl_M.
      rewrite Hdata. simpl_M. rewrite Hparse. by simpl_M.
    + destruct (IH st1 data Hin) as (e & st' & log & ->); [| done | by eexists _, _, _].
      by rewrite (process_docx_upload_dir _ _ _ _ _ _ Hq).
Qed.

(** X7. A stored .docx file that does not parse makes the start-up scan
    raise, whatever else is in the folder; and an upload that fails to parse
    leaves exactly such a file behind: it is answered 500 with the
    collection and the queue untouched, but its file stays in the upload
    folder, so that a later [create_vectorstore] that lists it raises. *)
Theorem unparseable_upload_breaks_startup (w : world)
    (files : gmap string file_storage) (file : file_storage) (st : state) :
  files !! "file" = Some file →
  allowed_file (fs_filename file) = true →
  parse_docx w (fs_content file) = None →
  let filepath := path_join UPLOAD_FOLDER (secure_filename w (fs_filename file)) in
  ∃ st' log,
    upload_file w files st
    = (Ok (Response (JsonError ("Error processing file: " +:+ str_exn w ParseError)) 500),
       st', log) ∧
    index st' = index st ∧ queue_dir st' = queue_dir st ∧
    upload_dir st' !! filepath = Some (fs_content file) ∧
    ∀ w2 docs_dir,
      parse_docx w2 (fs_content file) = None →
      filepath ∈ rglob_docx docs_dir (upload_dir st') →
      ∃ e st'' log2, create_vectorstore w2 docs_dir st' = (Raise e, st'', log2).
Proof.
  intros Hfile Hallowed Hparse filepath.
  unfold upload_file. rewrite Hfile, Hallowed.
  destruct (decide (fs_filename file = "")) as [Hempty|Hne].
  { rewrite Hempty in Hallowed. done. }
  destruct (fs_filename file) as [|c name] eqn:Hname; [done |].
  cbn [str_truthy andb]. unfold file_save. simpl_M. fold filepath.
  unfold try_except, mbind at 1, M_bind at 1.
  unfold process_docx, DocxDocument. simpl_M.
  cbn [upload_dir set_upload_dir]. rewrite lookup_insert_eq. simpl_M.
  rewrite Hparse. simpl_M. cbn.
  eexists _, _. split; [reflexivity |].
  cbn [index queue_dir upload_dir set_upload_dir].
  split; [done |]. split; [done |]. split; [apply lookup_insert_eq |].
  intros w2 docs_dir Hparse2 Hlisted. rewrite create_vectorstore_run.
  eapply for_each_process_docx_raises; [exact Hlisted | | exact Hparse2].
  apply lookup_insert_eq.
Qed.

Lemma unparseable_upload_breaks_startup_witness :
  ∃ e st'' log2,
    create_vectorstore unparseable_world "./uploaded_docs"
      (upload_file unparseable_world {[ "file" := FileStorage "bad.docx" [Byte.x00] ]}
         empty_state).1.2
    = (Raise e, st'', log2).
Proof.
  assert (Hfile : ({[ "file" := FileStorage "bad.docx" [Byte.x00] ]}
                     : gmap string file_storage) !! "file"
                  = Some (FileStorage "bad.docx" [Byte.x00])) by reflexivity.
  destruct (unparseable_upload_breaks_startup unparseable_world _ _ empty_state Hfile)
    as (st' & log & Hrun & _ & _ & _ & Hstartup).
  - reflexivity.
  - reflexivity.
  - assert (Hst : st' = (upload_file unparseable_world
                           {[ "file" := FileStorage "bad.docx" [Byte.x00] ]}
                           empty_state).1.2) by by rewrite Hrun.
    subst st'. apply Hstartup; [reflexivity |]. vm_compute. by left.
Defined.

(** ** The document list and the queue report *)





(** ** What the worker achieves and what it never does *)

(** An artifact whose entry exists and whose handling cannot fail is gone
    from the queue after the sweep that lists it. *)
Lemma sweep_unlinks w images st st' log b eb data b64 description source :
  b ∈ images →
  index st !! path_stem b = Some eb →
  metadata eb !! "source" = Some source →
  fs_read b (queue_dir st) = Some data →
  decode_png_b64 w data = Some b64 →
  describe_reply w b b64 = Some description →
  index_accepts w [path_stem b] = true →
  sweep w images st = (Ok tt, st', log) →
  ¬ in_queue st' b.
Proof.
  intros Hb Heb Hsrc Hread Hdec Hvis Hacc Hsweep.
  refine (sweep_establishes w
            (fun s _ => processed s (path_stem b) = true ∨
                        (index s !! path_stem b = Some eb ∧
                         fs_read b (queue_dir s) = Some data))
            (fun s _ => ¬ in_queue s b) images b Hb _ _ _
            st [] st' log _ Hsweep); [| | | by right].
  - intros p s acc r s1 l _ Hne [Hdone|[Hs Hrd]] Hrun.
    { left. by eapply handle_image_processed_stable. }
    apply handle_image_step in Hrun as (_ & _ & Hfs & _ & _ & _ & _ & _ & Hent & _).
    destruct (Hent _ _ Hs) as [Hs1|[_ Hdone]]; [right | by left].
    split; [done |]. by rewrite Hfs.
  - intros p s acc r s1 l _ Hgone Hrun Hin. apply Hgone.
    apply handle_image_step in Hrun as (_ & _ & _ & Hsub & _). auto.
  - intros s acc r s1 l Hs Hrun. rewrite handle_image_run in Hrun.
    unfold in_queue.
    destruct Hs as [Hdone|[Hs Hrd]].
    + unfold processed in Hdone.
      destruct (index s !! path_stem b) as [e|]; [| done]. rewrite Hdone in Hrun.
      injection Hrun as <- <- <-. cbn [queue_dir set_queue_dir].
      by intros [_ ?]%in_unlink.
    + rewrite Hs in Hrun. destruct (get_truthy (metadata eb !! "processed")).
      * injection Hrun as <- <- <-. cbn [queue_dir set_queue_dir].
        by intros [_ ?]%in_unlink.
      * rewrite Hrd, Hdec, Hvis, Hsrc, Hacc in Hrun. injection Hrun as <- <- <-.
        cbn [queue_dir set_queue_dir set_index]. by intros [_ ?]%in_unlink.
Qed.

(** X10. If every queued artifact has an entry with a source, decodes, is
    answered by the vision model and has its update accepted, then one
    iteration of the worker empties the queue of .png files and leaves the
    entry of every artifact processed. *)
Theorem one_sweep_drains_the_queue (w : world) (st : state) :
  (∀ p, p ∈ glob_png (queue_dir st) →
        ∃ e source data b64 description,
          index st !! path_stem p = Some e ∧
          metadata e !! "source" = Some source ∧
          fs_read p (queue_dir st) = Some data ∧
          decode_png_b64 w data = Some b64 ∧
          describe_reply w p b64 = Some description ∧
          index_accepts w [path_stem p] = true) →
  ∃ st' log,
    vision_worker_iteration w st = (Ok tt, st', log) ∧
    glob_png (queue_dir st') = [] ∧
    ∀ p, p ∈ glob_png (queue_dir st) → processed st' (path_stem p) = true.
Proof.
  intros Hall. destruct (iteration_run w st) as (st' & log & Hsweep & ->).
  exists st', (log ++ [EvSleep 10]). split; [done |]. split.
  - destruct (glob_png (queue_dir st')) as [|p l] eqn:Hglob; [done |].
    assert (Hp : p ∈ glob_png (queue_dir st')) by (rewrite Hglob; by left).
    apply elem_of_glob_png in Hp as [Hin Hpng].
    assert (Hp0 : p ∈ glob_png (queue_dir st)).
    { apply elem_of_glob_png. split; [| done]. by eapply sweep_queue_shrinks. }
    destruct (Hall p Hp0) as (e & source & data & b64 & d & He & Hs & Hr & Hd & Hv & Ha).
    exfalso.
    by apply (sweep_unlinks w (glob_png (queue_dir st)) st st' log p e data b64 d source).
  - intros p Hp.
    destruct (Hall p Hp) as (e & source & data & b64 & d & He & Hs & Hr & Hd & Hv & Ha).
    by apply (sweep_processes w (glob_png (queue_dir st)) st st' log p e data b64 d source).
Qed.

Lemma one_sweep_drains_the_queue_witness :
  ∃ st' log,
    vision_worker_iteration healthy_world queued_state = (Ok tt, st', log) ∧
    glob_png (queue_dir st') = [].
Proof.
  destruct (one_sweep_drains_the_queue healthy_world queued_state)
    as (st' & log & Hrun & Hempty & _).
  - intros p Hp. vm_compute in Hp.
    exists (Entry IMAGE_PLACEHOLDER (image_metadata "f.docx")), (MStr "f.docx").
    apply elem_of_cons in Hp as [->|Hp];
      [exists [Byte.x01] | apply list_elem_of_singleton in Hp as ->; exists [Byte.x02]];
      exists "b64", "a gear"; repeat split; vm_compute; reflexivity.
  - by exists st', log.
Defined.

(** X11. An artifact left over for an entry that is already processed is
    removed by the sweep that lists it, without being opened or submitted to
    the vision model and without any change to the entry. *)
Theorem leftover_artifact_is_cleaned_up (w : world) (st : state) (p : string)
    (e : entry) :
  p ∈ glob_png (queue_dir st) →
  index st !! path_stem p = Some e →
  get_truthy (metadata e !! "processed") = true →
  ∃ st' log,
    vision_worker_iteration w st = (Ok tt, st', log) ∧
    ¬ in_queue st' p ∧
    EvUnlink p ∈ log ∧
    index st' !! path_stem p = Some e ∧
    ¬ p ∈ reads log ∧ ¬ p ∈ submitted log ∧ ¬ path_stem p ∈ updated_ids log.
Proof.
  intros Hp He Hproc. destruct (iteration_run w st) as (st' & log & Hsweep & ->).
  exists st', (log ++ [EvSleep 10]). split; [done |].
  destruct (sweep_processed_terminal w _ st st' log (path_stem p) e He Hproc Hsweep)
    as (He' & Hupd & Hvis). destruct (Hvis p eq_refl) as [Hsub Hrd].
  assert (Hgone : ¬ in_queue st' p ∧ EvUnlink p ∈ [] ++ log).
  { refine (sweep_establishes w
              (fun s _ => index s !! path_stem p = Some e)
              (fun s acc => ¬ in_queue s p ∧ EvUnlink p ∈ acc)
              (glob_png (queue_dir st)) p Hp _ _ _ st [] st' log He Hsweep).
    - intros q s acc r s1 l _ _ Hs Hrun.
      apply handle_image_step in Hrun as (_ & _ & _ & _ & _ & Hother & Hidle & _).
      destruct (decide (path_stem p = path_stem q)) as [Heq|Hne]; [| by rewrite Hother].
      destruct Hidle as [-> _]; [| done].
      by rewrite awaits_analysis_lookup, <- Heq, Hs, Hproc.
    - intros q s acc r s1 l _ [Hgone Hlog] Hrun. split.
      + intros Hin. apply Hgone.
        apply handle_image_step in Hrun as (_ & _ & _ & Hshrink & _). auto.
      + apply elem_of_app. by left.
    - intros s acc r s1 l Hs Hrun. rewrite handle_image_run, Hs, Hproc in Hrun.
      injection Hrun as <- <- <-. split.
      + unfold in_queue. cbn [queue_dir set_queue_dir]. by intros [_ ?]%in_unlink.
      + apply elem_of_app. right. by left. }
  destruct Hgone as [Hgone Hlog]. split; [done |].
  split; [apply elem_of_app; by left |]. split; [done |].
  rewrite reads_app, submitted_app, updated_ids_app. cbn. by rewrite !app_nil_r.
Qed.

Lemma leftover_artifact_is_cleaned_up_witness :
  ¬ in_queue
      (vision_worker_iteration demo_world
         (State {[ "x_img_0" := Entry "a gear" (processed_metadata (MStr "x")) ]}
                [("x_img_0.png", [Byte.x01])] ∅)).1.2
      "x_img_0.png".
Proof.
  destruct (leftover_artifact_is_cleaned_up demo_world
              (State {[ "x_img_0" := Entry "a gear" (processed_metadata (MStr "x")) ]}
                     [("x_img_0.png", [Byte.x01])] ∅)
              "x_img_0.png" (Entry "a gear" (processed_metadata (MStr "x"))))
    as (st' & log & Hrun & Hgone & _).
  - vm_compute. by left.
  - reflexivity.
  - reflexivity.
  - by rewrite Hrun.
Defined.

(** A property of the state that every handling of an artifact keeps, in
    every world, holds after any number of iterations of the worker, which
    runs them all without raising. *)
Lemma worker_invariant (I : state → Prop) :
  (∀ w p s r s1 l, I s → handle_image w p s = (r, s1, l) → I s1) →
  ∀ ws st, I st → ∃ st' log, vision_worker ws st = (Ok tt, st', log) ∧ I st'.
Proof.
  intros Hstep ws. induction ws as [|w ws IH]; intros st HI; [by eexists _, _ |].
  destruct (vision_worker_cons w ws st) as (st1 & log1 & Hsweep & ->).
  assert (HI1 : I st1).
  { refine (sweep_invariant w (fun s _ => I s) _ _ st [] st1 log1 HI Hsweep).
    intros p s acc r s1 l _ Hs Hrun. by eapply Hstep. }
  destruct (IH st1 HI1) as (st' & log & -> & HI'). by eexists _, _.
Qed.

Lemma handle_image_source w p st r st1 log id :
  handle_image w p st = (r, st1, log) →
  source_of (index st1) id = source_of (index st) id.
Proof.
  rewrite handle_image_run. unfold source_of.
  destruct (index st !! path_stem p) as [e|] eqn:He; [| by intros [= <- <- <-]].
  destruct (get_truthy (metadata e !! "processed")); [by intros [= <- <- <-] |].
  destruct (fs_read p (queue_dir st)) as [data|]; [| by intros [= <- <- <-]].
  destruct (decode_png_b64 w data) as [b64|]; [| by intros [= <- <- <-]].
  destruct (describe_reply w p b64) as [d|]; [| by intros [= <- <- <-]].
  destruct (metadata e !! "source") as [source|] eqn:Hsrc; [| by intros [= <- <- <-]].
  destruct (index_accepts w [path_stem p]); [| by intros [= <- <- <-]].
  intros [= <- <- <-]. cbn [index set_queue_dir set_index].
  destruct (decide (id = path_stem p)) as [->|Hne].
  - rewrite lookup_alter_eq, He. cbn. by rewrite processed_metadata_source, Hsrc.
  - by rewrite lookup_alter_ne.
Qed.

Lemma known_source_source_of st st' :
  (∀ id, source_of (index st') id = source_of (index st) id) →
  ∀ file_name, known_source st' file_name = known_source st file_name.
Proof.
  intros Hsame file_name.
  assert (Hdir : ∀ s s', (∀ id, source_of (index s') id = source_of (index s) id) →
                         known_source s file_name = true →
                         known_source s' file_name = true).
  { intros s s' Hs (id & e & He & Hsrc)%known_source_spec. apply known_source_spec.
    specialize (Hs id). unfold source_of in Hs. rewrite He in Hs.
    destruct (index s' !! id) as [e'|] eqn:He'; [| done].
    exists id, e'. split; [done |]. cbn in Hs. congruence. }
  destruct (known_source st file_name) eqn:Hk.
  - by apply (Hdir st st').
  - destruct (known_source st' file_name) eqn:Hk'; [| done].
    apply (Hdir st' st) in Hk'; [congruence | by intros id].
Qed.

(** X12. However many iterations the worker runs, and whatever the
    collaborators do, it never raises, never touches the upload folder,
    never puts a file into the queue directory, never creates or deletes an
    entry and never changes the source of one: the same ids are present, with
    the same source, so the same sources are known. *)
Theorem worker_only_updates_and_unlinks (ws : list world) (st : state) :
  ∃ st' log,
    vision_worker ws st = (Ok tt, st', log) ∧
    upload_dir st' = upload_dir st ∧
    (∀ name, in_queue st' name → in_queue st name) ∧
    (∀ id, (index st' !! id = None ↔ index st !! id = None) ∧
           ((fun e => metadata e !! "source") <$> index st' !! id)
           = ((fun e => metadata e !! "source") <$> index st !! id)) ∧
    (∀ file_name, known_source st' file_name = known_source st file_name).
Proof.
  destruct (worker_invariant
              (fun s => upload_dir s = upload_dir st ∧
                        (∀ name, in_queue s name → in_queue st name) ∧
                        ∀ id, source_of (index s) id = source_of (index st) id)) with
    (ws := ws) (st := st) as (st' & log & Hrun & Hup & Hq & Hsrc).
  - intros w p s r s1 l (Hup & Hq & Hsrc) Hstep.
    pose proof (fun id => handle_image_source w p s r s1 l id Hstep) as Hsrc1.
    apply handle_image_step in Hstep as (Hup1 & _ & _ & Hshrink & _).
    split; [congruence |]. split; [auto |]. intros id. by rewrite Hsrc1.
  - done.
  - exists st', log. split; [done |]. split; [done |]. split; [done |]. split.
    + intros id. specialize (Hsrc id). unfold source_of in Hsrc. split; [| done].
      destruct (index st' !! id), (index st !! id); done.
    + by apply known_source_source_of.
Qed.

Lemma handle_image_unlinks_processed w p st r st1 log name :
  handle_image w p st = (r, st1, log) →
  in_queue st name → ¬ in_queue st1 name →
  name = p ∧ processed st1 (path_stem p) = true.
Proof.
  intros Hrun Hin Hout.
  assert (Hname : name = p).
  { destruct (decide (name = p)) as [|Hne]; [done |]. exfalso. apply Hout.
    apply handle_image_step in Hrun as (_ & _ & _ & _ & Hkeep & _). auto. }
  subst name. split; [done |].
  rewrite handle_image_run in Hrun. unfold processed.
  destruct (index st !! path_stem p) as [e|] eqn:He; [| by injection Hrun as <- <- <-].
  destruct (get_truthy (metadata e !! "processed")) eqn:Hproc.
  { injection Hrun as <- <- <-. cbn [index set_queue_dir]. by rewrite He. }
  destruct (fs_read p (queue_dir st)) as [data|]; [| by injection Hrun as <- <- <-].
  destruct (decode_png_b64 w data) as [b64|]; [| by injection Hrun as <- <- <-].
  destruct (describe_reply w p b64) as [d|]; [| by injection Hrun as <- <- <-].
  destruct (metadata e !! "source") as [source|]; [| by injection Hrun as <- <- <-].
  destruct (index_accepts w [path_stem p]); [| by injection Hrun as <- <- <-].
  injection Hrun as <- <- <-. cbn [index set_queue_dir set_index].
  rewrite lookup_alter_eq, He. cbn. by rewrite processed_metadata_processed.
Qed.

(** X13. The worker never deletes the artifact of an image that is not
    processed: whatever the collaborators do over any number of iterations,
    a file that was in the queue directory and is no longer there has an
    entry, and that entry is processed. *)
Theorem worker_unlinks_only_processed (ws : list world) (st st' : state)
    (log : list event) (name : string) :
  vision_worker ws st = (Ok tt, st', log) →
  in_queue st name →
  ¬ in_queue st' name →
  processed st' (path_stem name) = true.
Proof.
  intros Hrun Hin Hout.
  destruct (worker_invariant
              (fun s => in_queue s name ∨ processed s (path_stem name) = true))
    with (ws := ws) (st := st) as (st2 & log2 & Hrun2 & Hinv).
  - intros w p s r s1 l [Hs|Hdone] Hstep.
    + unfold in_queue in *.
      destruct (decide (name ∈ (queue_dir s1).*1)) as [|Hgone]; [by left | right].
      by destruct (handle_image_unlinks_processed w p s r s1 l name Hstep Hs Hgone)
        as [-> ?].
    + right. by eapply handle_image_processed_stable.
  - by left.
  - rewrite Hrun in Hrun2. injection Hrun2 as <- <-. by destruct Hinv.
Qed.

Lemma worker_unlinks_only_processed_witness :
  processed (vision_worker [demo_world; healthy_world] queued_state).1.2 "f.docx_img_0"
  = true.
Proof.
  apply (worker_unlinks_only_processed [demo_world; healthy_world] queued_state
           (vision_worker [demo_world; healthy_world] queued_state).1.2
           (vision_worker [demo_world; healthy_world] queued_state).2
           "f.docx_img_0.png").
  - vm_compute. reflexivity.
  - vm_compute. by left.
  - vm_compute. intros H. by apply elem_of_nil in H.
Defined.

(** X14. When the handling of an artifact raises, the collection, the queue
    directory and the uploads are exactly as before, whichever step raised
    (the file read, the decoding, the vision call, the lookup of the source
    or the update): the entry is never updated without the artifact being
    unlinked after it, and nothing is unlinked on failure. *)
Theorem failed_handling_changes_nothing (w : world) (p : string) (st st1 : state)
    (e : exn) (log : list event) :
  handle_image w p st = (Raise e, st1, log) →
  st1 = st ∧
  e ∈ [FileNotFoundError; DecodeError; VisionError; KeyError "source"; IndexWriteError] ∧
  awaits_analysis (index st) p = true ∧
  head log = Some (EvRead p) ∧
  ∀ name, ¬ EvUnlink name ∈ log.
Proof.
  rewrite handle_image_run, awaits_analysis_lookup.
  destruct (index st !! path_stem p) as [en|]; [| done].
  destruct (get_truthy (metadata en !! "processed")); [done |].
  assert (Hmem : ∀ x, x ∈ [FileNotFoundError; DecodeError; VisionError;
                            KeyError "source"; IndexWriteError] ↔
                      x = FileNotFoundError ∨ x = DecodeError ∨ x = VisionError ∨
                      x = KeyError "source" ∨ x = IndexWriteError).
  { intros x. rewrite !elem_of_cons, elem_of_nil. tauto. }
  repeat match goal with
         | |- context [match ?x with _ => _ end] => destruct x
         end;
    intros [= <- <- <-]; (split; [done |]); rewrite Hmem;
    (split; [tauto |]); (split; [done |]); (split; [done |]);
    intros name Hin;
    repeat (apply elem_of_cons in Hin as [Hin|Hin]; [done |]);
    by apply elem_of_nil in Hin.
Qed.

Lemma failed_handling_changes_nothing_witness :
  (handle_image demo_world "f.docx_img_0.png" queued_state).1.2 = queued_state.
Proof.
  apply (failed_handling_changes_nothing demo_world "f.docx_img_0.png" queued_state _
           VisionError (handle_image demo_world "f.docx_img_0.png" queued_state).2).
  vm_compute. reflexivity.
Defined.

(** X15. While the vision model is unreachable, an iteration of the worker
    over a queue in which no artifact belongs to a processed entry changes
    nothing: no entry is touched and every artifact stays queued for the
    next iteration. *)
Theorem vision_outage_changes_nothing (w : world) (st : state) :
  (∀ name image_b64, describe_reply w name image_b64 = None) →
  (∀ p, p ∈ glob_png (queue_dir st) → processed st (path_stem p) = false) →
  ∃ log, vision_worker_iteration w st = (Ok tt, st, log) ∧ updated_ids log = [].
Proof.
  intros Hdown Hfresh. destruct (iteration_run w st) as (st' & log & Hsweep & ->).
  assert (Hinv : st' = st ∧ updated_ids ([] ++ log) = []).
  { refine (sweep_invariant w
              (fun s acc => s = st ∧ updated_ids acc = [])
              (glob_png (queue_dir st)) _ st [] st' log _ Hsweep); [| done].
    intros p s acc r s1 l Hp (-> & Hupd) Hrun.
    rewrite updated_ids_app, body_log_updated_ids, Hupd.
    specialize (Hfresh p Hp). unfold processed in Hfresh.
    rewrite handle_image_run in Hrun.
    destruct (index st !! path_stem p) as [e|]; [| by injection Hrun as <- <- <-].
    rewrite Hfresh in Hrun.
    destruct (fs_read p (queue_dir st)) as [data|]; [| by injection Hrun as <- <- <-].
    destruct (decode_png_b64 w data) as [b64|]; [| by injection Hrun as <- <- <-].
    rewrite Hdown in Hrun. by injection Hrun as <- <- <-. }
  destruct Hinv as (-> & Hupd). cbn [app] in *.
  exists (log ++ [EvSleep 10]). split; [done |].
  rewrite updated_ids_app, Hupd. done.
Qed.

Lemma vision_outage_changes_nothing_witness :
  (vision_worker_iteration vision_down_world queued_state).1.2 = queued_state.
Proof.
  destruct (vision_outage_changes_nothing vision_down_world queued_state)
    as (log & Hrun & _).
  - intros name image_b64. reflexivity.
  - intros p Hp. vm_compute in Hp.
    apply elem_of_cons in Hp as [->|Hp];
      [| apply list_elem_of_singleton in Hp as ->]; vm_compute; reflexivity.
  - by rewrite Hrun.
Defined.

(** ** Ingestion only adds *)

Lemma queue_images_events w file_name rels : ∀ first st r st' log,
  queue_images w file_name rels first st = (r, st', log) →
  Forall is_add_or_write log.
Proof.
  induction rels as [|[target_ref blob] rels IH]; intros first st r st' log.
  - intros [= <- <- <-]. constructor.
  - cbn [queue_images]. destruct (py_in "image" target_ref); [| apply IH].
    unfold open_write, collection_add. simpl_M.
    destruct (index_accepts w _); simpl_M.
    + destruct (queue_images w file_name rels (S first) _) as [[r2 st2] l2] eqn:Hrest.
      intros [= <- <- <-]. apply IH in Hrest. by repeat constructor.
    + intros [= <- <- <-]. by repeat constructor.
Qed.

(** X16. Whatever its outcome, [process_docx] only adds: every call it
    makes is an add to the collection or the write of a queue file, it
    leaves the upload folder as it is, and every file that was in the queue
    directory is still there. *)
Theorem ingestion_only_adds (w : world) (path : string) (st st' : state)
    (r : res unit) (log : list event) :
  process_docx w path st = (r, st', log) →
  Forall is_add_or_write log ∧
  upload_dir st' = upload_dir st ∧
  ∀ name, in_queue st name → in_queue st' name.
Proof.
  intros Hrun. split; [| split; [by eapply process_docx_upload_dir |]]; revert Hrun;
    unfold process_docx, DocxDocument; simpl_M;
    (destruct (upload_dir st !! path) as [data|]; simpl_M;
       [| by intros [= <- <- <-]]);
    (destruct (parse_docx w data) as [doc|]; simpl_M; [| by intros [= <- <- <-]]);
    (destruct (store_ids_where_source (index st) (basename path));
       [| by intros [= <- <- <-]]);
    unfold collection_add; simpl_M;
    (destruct (index_accepts w _); simpl_M;
       [| intros [= <- <- <-]; by repeat constructor]);
    destruct (queue_images w _ _ _ _) as [[r2 st2] l2] eqn:Himgs;
    intros [= <- <- <-].
  - constructor; [done |]. by eapply queue_images_events.
  - intros name Hin. by apply (queue_images_queue _ _ _ _ _ _ _ _ Himgs).
Qed.

Lemma ingestion_only_adds_witness :
  upload_dir queued_state = upload_dir uploaded_state.
Proof.
  apply (ingestion_only_adds demo_world demo_path uploaded_state queued_state
           (Ok tt) (process_docx demo_world demo_path uploaded_state).2).
  vm_compute. reflexivity.
Defined.

(** ** The stream of an answer *)





(** ** The [ask] method and the two prompts *)

Lemma prefix_refl_app p t : String.prefix p (p +:+ t) = true.
Proof.
  induction p as [|c p IH]; [by destruct t |].
  rewrite app_String. cbn [String.prefix]. by destruct (ascii_dec c c).
Qed.

Lemma prefix_app_l p u v : String.prefix p u = true → String.prefix p (u +:+ v) = true.
Proof.
  revert u. induction p as [|c p IH]; intros u; [by destruct (u +:+ v) |].
  destruct u as [|d u]; [done |]. rewrite app_String. cbn [String.prefix].
  destruct (ascii_dec c d); [apply IH | done].
Qed.

Lemma rev_app_spec s acc : String.rev_app s acc = String.rev s +:+ acc.
Proof.
  unfold String.rev. revert acc. induction s as [|c s IH]; intros acc; [done |].
  cbn [String.rev_app]. rewrite IH, (IH (String c "")).
  generalize (String.rev_app s ""). intros r.
  induction r as [|d r IHr]; [done |]. rewrite !app_String. by rewrite IHr.
Qed.

Lemma endswith_self x : py_endswith x x = true.
Proof.
  unfold py_endswith. rewrite <- (prefix_refl_app (String.rev x) "") at 1.
  f_equal. generalize (String.rev x). intros r.
  induction r as [|d r IHr]; [done |]. rewrite app_String. by rewrite <- IHr.
Qed.

Lemma endswith_app_r x a t : py_endswith x t = true → py_endswith x (a +:+ t) = true.
Proof.
  unfold py_endswith. intros Ht. unfold String.rev at 2.
  rewrite rev_app_app, (rev_app_spec t). by apply prefix_app_l.
Qed.

Lemma py_in_here s b : py_in s (s +:+ b) = true.
Proof.
  destruct (s +:+ b) eqn:Hsb; cbn [py_in]; rewrite <- Hsb, prefix_refl_app; done.
Qed.

Lemma py_in_app_r s a t : py_in s t = true → py_in s (a +:+ t) = true.
Proof.
  intros Ht. induction a as [|c a IH]; [done |].
  rewrite app_String. cbn [py_in]. rewrite IH. apply orb_true_r.
Qed.

(** X18. Both prompts, the one of [ask] and the one of the streaming
    route, carry the retrieved context verbatim and end with the line
    USER QUESTION: followed by the question as it was asked. [ask] queries
    the collection once for 6 results; if that fails it raises the query
    error without calling the completion model, and otherwise it calls the
    model once with its prompt and returns the content or raises. It never
    changes the state. *)
Theorem ask_method_outcome (w : world) (complete : string → option string)
    (question : string) (st : state) (documents : list string) :
  let context := py_join (nl +:+ nl) documents in
  (py_in context (ask_method_prompt context question) = true ∧
   py_endswith ("USER QUESTION: " +:+ question) (ask_method_prompt context question)
   = true) ∧
  (py_in context (ask_prompt context question) = true ∧
   py_endswith ("USER QUESTION: " +:+ question) (ask_prompt context question) = true) ∧
  (query_reply w question = None →
   ask w complete question st = (Raise QueryError, st, [EvQuery question 6])) ∧
  (query_reply w question = Some documents →
   ask w complete question st
   = (match complete (ask_method_prompt context question) with
      | Some content => Ok content
      | None => Raise CompletionError
      end,
      st,
      [EvQuery question 6; EvCompletion (ask_method_prompt context question)])).
Proof.
  intros context. split; [| split; [| split]].
  - unfold ask_method_prompt. split.
    + repeat (apply py_in_app_r; try apply py_in_here).
    + repeat (first [apply endswith_self | apply endswith_app_r]).
  - unfold ask_prompt. split.
    + repeat (apply py_in_app_r; try apply py_in_here).
    + repeat (first [apply endswith_self | apply endswith_app_r]).
  - intros Hq. unfold ask. simpl_M. rewrite Hq. by simpl_M.
  - intros Hq. unfold ask. simpl_M. rewrite Hq. simpl_M. fold context.
    by destruct (complete (ask_method_prompt context question)).
Qed.

Lemma ask_method_outcome_witness :
  ask offline_world (fun _ => Some "answer") "hi" empty_state
  = (Raise QueryError, empty_state, [EvQuery "hi" 6]).
Proof.
  apply (ask_method_outcome offline_world (fun _ => Some "answer") "hi" empty_state []).
  reflexivity.
Defined.
